(** * A shallow embedding of the bytecode interpreter of [vm.py]

    The development follows the source file top to bottom: the value
    universe the interpreter manipulates, the [Frame] record with its stack
    primitives ([top], [pop], [push], [popn]), the instruction handlers, the
    argument binding performed by the closure [f] that [make_function_op]
    builds, and the dispatch loop [run].

    The interpreter delegates every operation on values to the Python object
    runtime.  Those operations are gathered in the record [ObjectRuntime] and
    the handlers are written against an arbitrary runtime; a small concrete
    runtime over integers, booleans, strings, attribute-carrying instances
    and class objects is given for the examples.

    A frame is created either with its own dictionary of locals, as the
    frame of a function call is, or with one dictionary for its globals and
    its locals, as the first frame of [VirtualMachine.run] is. *)

From stdpp Require Import base option list gmap strings pretty.
From Stdlib Require Import ZArith Lia.

Local Open Scope Z_scope.

(** ** Exceptions and outcomes *)

(** The exception classes the interpreter itself raises, plus the ones the
    Python sequence and mapping primitives it uses can raise.  [Unembedded]
    marks an instruction or an operand shape that lies outside the embedded
    fragment. *)
Inductive exn : Type :=
| TypeError (msg : string)
| NameError
| IndexError
| KeyError
| AttributeError
| ValueError
| StopIteration
| Unembedded.

Inductive outcome (A : Type) : Type :=
| Ok (a : A)
| Raise (e : exn).
Arguments Ok {A} a.
Arguments Raise {A} e.

Definition bind {A B : Type} (m : outcome A) (k : A -> outcome B) : outcome B :=
  match m with
  | Ok a => k a
  | Raise e => Raise e
  end.

Notation "'let*' x ':=' m 'in' k" := (bind m (fun x => k))
  (at level 10, x pattern, m at level 100, k at level 200).

(** ** Values, code units and instructions *)

(** The binary operators of [BINARY_OP], in the order of the first thirteen
    operand codes. *)
Inductive binop : Type :=
| NbAdd | NbAnd | NbFloorDivide | NbLshift | NbMatrixMultiply | NbMultiply
| NbRemainder | NbOr | NbPower | NbRshift | NbSubtract | NbTrueDivide | NbXor.

(** [VSet l] stands for [set(l)], the set the runtime builds from the
    sequence [l]; [VIter loc] is a reference to an iterator object of the
    iterator store; [VObj cls attrs] is an instance of the class named [cls]
    with the instance attributes [attrs]; [VClass name attrs] is the class
    object of a class with the class attributes [attrs]. *)
#[local] Unset Elimination Schemes.
Inductive value : Type :=
| VNone
| VNotImplemented
| VBool (b : bool)
| VInt (z : Z)
| VStr (s : string)
| VList (l : list value)
| VTuple (l : list value)
| VSet (l : list value)
| VDict (d : list (string * value))
| VIter (loc : nat)
| VCode (c : CodeType)
| VFunc (c : CodeType) (args_default kwargs_default : value)
| VObj (cls : string) (attrs : list (string * value))
| VClass (name : string) (attrs : list (string * value))
with CodeType : Type :=
| Code (varnames : list string)
       (argcount posonlyargcount kwonlyargcount nlocals flags : Z)
       (consts : list value)
       (instructions : list instruction)
with instruction : Type :=
| Instruction (ins_offset : Z) (ins_op : opcode)
with opcode : Type :=
| RESUME
| PUSH_NULL
| PRECALL
| CALL (argc : Z)
| LOAD_NAME (namei : string)
| LOAD_GLOBAL (namei : Z) (val : string)
| LOAD_CONST (consti : value)
| RETURN_VALUE
| POP_TOP
| MAKE_FUNCTION (mf_flags : Z)
| STORE_NAME (namei : string)
| STORE_GLOBAL (namei : string)
| STORE_FAST (var_num : string)
| BINARY_OP (op : Z)
| GET_ITER
| JUMP_FORWARD (to : Z)
| JUMP_BACKWARD (to : Z)
| FOR_ITER (to : Z)
| POP_JUMP_FORWARD_IF_TRUE (to : Z)
| POP_JUMP_FORWARD_IF_FALSE (to : Z)
| POP_JUMP_BACKWARD_IF_TRUE (to : Z)
| POP_JUMP_BACKWARD_IF_FALSE (to : Z)
| JUMP_IF_TRUE_OR_POP (to : Z)
| JUMP_IF_FALSE_OR_POP (to : Z)
| LOAD_FAST (var_num : string)
| POP_JUMP_FORWARD_IF_NONE (to : Z)
| BUILD_LIST (count : Z)
| BUILD_SET (count : Z)
| FORMAT_VALUE (fv_flags : Z)
| NOP
| COPY (i : Z)
| LOAD_METHOD (namei : string)
| BUILD_TUPLE (count : Z)
| KW_NAMES (consti : Z)
| LOAD_ATTR (namei : string)
| SWAP (i : Z)
| OTHER_HANDLER (opname : string)
| NO_HANDLER (opname : string).
#[local] Set Elimination Schemes.

Definition co_varnames (c : CodeType) : list string :=
  match c with Code v _ _ _ _ _ _ _ => v end.
Definition co_argcount (c : CodeType) : Z :=
  match c with Code _ n _ _ _ _ _ _ => n end.
Definition co_posonlyargcount (c : CodeType) : Z :=
  match c with Code _ _ n _ _ _ _ _ => n end.
Definition co_kwonlyargcount (c : CodeType) : Z :=
  match c with Code _ _ _ n _ _ _ _ => n end.
Definition co_nlocals (c : CodeType) : Z :=
  match c with Code _ _ _ _ n _ _ _ => n end.
Definition co_flags (c : CodeType) : Z :=
  match c with Code _ _ _ _ _ n _ _ => n end.
Definition co_consts (c : CodeType) : list value :=
  match c with Code _ _ _ _ _ _ k _ => k end.
Definition get_instructions (c : CodeType) : list instruction :=
  match c with Code _ _ _ _ _ _ _ l => l end.

Definition offset (i : instruction) : Z :=
  match i with Instruction o _ => o end.
Definition operation (i : instruction) : opcode :=
  match i with Instruction _ o => o end.

(** ** Python sequence primitives *)

Section Sequences.
Context {A : Type}.

Definition len (l : list A) : Z := Z.of_nat (length l).

(** Position denoted by a slice bound [i] in a sequence of length [n]:
    negative bounds count from the end, and every bound is clipped. *)
Definition slice_bound (n i : Z) : nat :=
  Z.to_nat (if i <? 0 then Z.max 0 (n + i) else Z.min i n).

(** [l[i:]] *)
Definition slice_from (l : list A) (i : Z) : list A :=
  drop (slice_bound (len l) i) l.

(** [l[:i]] *)
Definition slice_to (l : list A) (i : Z) : list A :=
  take (slice_bound (len l) i) l.

(** [l[i]], raising [IndexError] out of range. *)
Definition subscript (l : list A) (i : Z) : outcome A :=
  let j := if i <? 0 then len l + i else i in
  if j <? 0 then Raise IndexError
  else match l !! Z.to_nat j with
       | Some x => Ok x
       | None => Raise IndexError
       end.

(** [l[i] = x], raising [IndexError] out of range. *)
Definition store_subscript (l : list A) (i : Z) (x : A) : outcome (list A) :=
  let j := if i <? 0 then len l + i else i in
  if (j <? 0) || (len l <=? j) then Raise IndexError
  else Ok (<[Z.to_nat j := x]> l).
End Sequences.

(** ** Insertion-ordered dictionaries with string keys *)

Section Dicts.
Context {V : Type}.

Definition dict : Type := list (string * V).

Fixpoint dict_get (d : list (string * V)) (k : string) : option V :=
  match d with
  | [] => None
  | (k', v) :: d' => if String.eqb k' k then Some v else dict_get d' k
  end.

Definition dict_mem (d : list (string * V)) (k : string) : bool :=
  match dict_get d k with Some _ => true | None => false end.

(** [d[k] = v]: an existing key keeps its position, a new key goes last. *)
Fixpoint dict_set (d : list (string * V)) (k : string) (v : V)
  : list (string * V) :=
  match d with
  | [] => [(k, v)]
  | (k', v') :: d' =>
      if String.eqb k' k then (k', v) :: d' else (k', v') :: dict_set d' k v
  end.

(** [dict(pairs)] *)
Definition dict_of (pairs : list (string * V)) : list (string * V) :=
  fold_left (fun d kv => dict_set d (fst kv) (snd kv)) pairs [].

(** [d.update(e)] *)
Definition dict_update (d e : list (string * V)) : list (string * V) :=
  fold_left (fun d kv => dict_set d (fst kv) (snd kv)) e d.

(** [zip(ks, vs)], stopping at the shorter sequence. *)
Fixpoint zip_names (ks : list string) (vs : list V) : list (string * V) :=
  match ks, vs with
  | k :: ks', v :: vs' => (k, v) :: zip_names ks' vs'
  | _, _ => []
  end.
End Dicts.
Arguments dict V : clear implicits.

(** ** The object runtime *)

(** [type(v).__name__], as the messages of the runtime's type errors print
    it.  The iterator store does not record which kind of sequence an
    iterator came from, so the type name of an iterator is not embedded. *)
Definition type_name (v : value) : outcome string :=
  match v with
  | VNone => Ok "NoneType"
  | VNotImplemented => Ok "NotImplementedType"
  | VBool _ => Ok "bool"
  | VInt _ => Ok "int"
  | VStr _ => Ok "str"
  | VList _ => Ok "list"
  | VTuple _ => Ok "tuple"
  | VSet _ => Ok "set"
  | VDict _ => Ok "dict"
  | VIter _ => Raise Unembedded
  | VCode _ => Ok "code"
  | VFunc _ _ _ => Ok "function"
  | VObj cls _ => Ok cls
  | VClass _ _ => Ok "type"
  end.

(** Everything the interpreter asks of Python objects.

    [dunder op x] is the attribute lookup [x.__op__] on the object itself
    ([None] when the lookup fails).  The operator syntax does not go through
    that lookup: it reads the slots of the operand types.  [nb_slot op v] is
    the slot of the operator among the number methods of [type(v)], a
    function of both operands; [sq_concat v] and [sq_repeat v] are the
    concatenation and repetition slots among its sequence methods, and
    [index_of n] is the conversion of [n] to a repetition count ([None]
    when [n] is no integer-like object).  [same_type v w] tells whether both
    operands have the same type, [same_slot op v w] whether their types
    share one slot for the operator, and [is_subtype w v] whether
    [type(w)] is a subtype of [type(v)].

    The operations are functions of their arguments: what a callee or a
    method may do to objects shared with the frame is outside this
    embedding. *)
Record ObjectRuntime : Type := {
  call_value : value -> list value -> dict value -> outcome value;
  getattr : value -> string -> outcome value;
  getattribute : value -> string -> outcome value;
  str_of : value -> outcome value;
  repr_of : value -> outcome value;
  ascii_of : value -> outcome value;
  truth : value -> bool;
  dunder : binop -> value -> option (value -> outcome value);
  nb_slot : binop -> value -> option (value -> value -> outcome value);
  sq_concat : value -> option (value -> outcome value);
  sq_repeat : value -> option (Z -> outcome value);
  index_of : value -> option (outcome Z);
  same_type : value -> value -> bool;
  same_slot : binop -> value -> value -> bool;
  is_subtype : value -> value -> bool
}.

(** The operator as the message of an unsupported operation prints it. *)
Definition op_symbol (op : binop) : string :=
  match op with
  | NbAdd => "+"
  | NbAnd => "&"
  | NbFloorDivide => "//"
  | NbLshift => "<<"
  | NbMatrixMultiply => "@"
  | NbMultiply => "*"
  | NbRemainder => "%"
  | NbOr => "|"
  | NbPower => "** or pow()"
  | NbRshift => ">>"
  | NbSubtract => "-"
  | NbTrueDivide => "/"
  | NbXor => "^"
  end.

Definition unsupported_operand (op : binop) (v w : value) : outcome value :=
  let* a := type_name v in
  let* b := type_name w in
  Raise (TypeError ("unsupported operand type(s) for " +:+ op_symbol op +:+
                    ": '" +:+ a +:+ "' and '" +:+ b +:+ "'")).

(** A slot result that declines the operation. *)
Definition not_implemented (r : value) : bool :=
  match r with VNotImplemented => true | _ => false end.

(** [x.__op__(y)]: the method-dispatch form. *)
Definition method_form (rt : ObjectRuntime) (op : binop) (x y : value)
  : outcome value :=
  match dunder rt op x with
  | Some m => m y
  | None => Raise AttributeError
  end.

(** The number slots of both operand types, tried in the order of the
    runtime: the slot of the right operand goes first when its type is a
    subtype of the left one's, and is left out when it is the slot of the
    left operand. *)
Definition binary_op1 (rt : ObjectRuntime) (op : binop) (v w : value)
  : outcome value :=
  let slotv := nb_slot rt op v in
  let slotw :=
    if same_type rt v w then None
    else if same_slot rt op v w then None
    else nb_slot rt op w in
  match slotv, slotw with
  | Some fv, Some fw =>
      if is_subtype rt w v then
        let* x := fw v w in
        if not_implemented x then fv v w else Ok x
      else
        let* x := fv v w in
        if not_implemented x then fw v w else Ok x
  | Some fv, None => fv v w
  | None, Some fw => fw v w
  | None, None => Ok VNotImplemented
  end.

(** Repetition of a sequence by the count object [n]. *)
Definition sequence_repeat (rt : ObjectRuntime)
    (repeatfunc : Z -> outcome value) (n : value) : outcome value :=
  match index_of rt n with
  | Some count => let* c := count in repeatfunc c
  | None =>
      let* t := type_name n in
      Raise (TypeError ("can't multiply sequence by non-int of type '" +:+
                        t +:+ "'"))
  end.

(** [x op y]: the operator-syntax form.  When the number slots decline,
    addition falls back on the concatenation slot of the left operand and
    multiplication on the repetition slot of either operand. *)
Definition operator_form (rt : ObjectRuntime) (op : binop) (x y : value)
  : outcome value :=
  let* result := binary_op1 rt op x y in
  if not_implemented result then
    match op with
    | NbAdd =>
        match sq_concat rt x with
        | Some concat => concat y
        | None => unsupported_operand op x y
        end
    | NbMultiply =>
        match sq_repeat rt x with
        | Some repeatfunc => sequence_repeat rt repeatfunc y
        | None =>
            match sq_repeat rt y with
            | Some repeatfunc => sequence_repeat rt repeatfunc x
            | None => unsupported_operand op x y
            end
        end
    | _ => unsupported_operand op x y
    end
  else Ok result.

(** ** Frames *)

(** A frame refers to three name spaces.  The frame of a function call owns
    its locals; the frame the virtual machine starts with is given one
    dictionary as its globals and as its locals.  [locals_is_globals] tells
    which is the case, and [own_locals] is the dictionary of the locals when
    the frame owns it. *)
Record Frame : Type := mkFrame {
  code : CodeType;
  builtins : gmap string value;
  globals : gmap string value;
  own_locals : gmap string value;
  locals_is_globals : bool;
  data_stack : list value;
  return_value : value;
  index : gmap Z Z;
  counter : Z;
  last_raised_exception : value;
  kw_names : list string;
  iterators : gmap nat (list value)
}.

(** [self.locals] *)
Definition locals (fr : Frame) : gmap string value :=
  if locals_is_globals fr then globals fr else own_locals fr.

(** [Frame.__init__], given two distinct dictionaries as globals and
    locals. *)
Definition new_frame (frame_code : CodeType)
    (frame_builtins frame_globals frame_locals : gmap string value)
    (store : gmap nat (list value)) : Frame :=
  mkFrame frame_code frame_builtins frame_globals frame_locals false
          [] VNone ∅ 0 VNone [] store.

(** [Frame.__init__], given one dictionary as globals and as locals. *)
Definition new_frame_shared (frame_code : CodeType)
    (frame_builtins frame_globals : gmap string value)
    (store : gmap nat (list value)) : Frame :=
  mkFrame frame_code frame_builtins frame_globals ∅ true
          [] VNone ∅ 0 VNone [] store.

Definition with_stack (fr : Frame) (s : list value) : Frame :=
  mkFrame (code fr) (builtins fr) (globals fr) (own_locals fr)
          (locals_is_globals fr) s
          (return_value fr) (index fr) (counter fr)
          (last_raised_exception fr) (kw_names fr) (iterators fr).

Definition with_counter (fr : Frame) (c : Z) : Frame :=
  mkFrame (code fr) (builtins fr) (globals fr) (own_locals fr)
          (locals_is_globals fr) (data_stack fr)
          (return_value fr) (index fr) c
          (last_raised_exception fr) (kw_names fr) (iterators fr).

Definition with_index (fr : Frame) (ix : gmap Z Z) : Frame :=
  mkFrame (code fr) (builtins fr) (globals fr) (own_locals fr)
          (locals_is_globals fr) (data_stack fr)
          (return_value fr) ix (counter fr)
          (last_raised_exception fr) (kw_names fr) (iterators fr).

Definition with_return_value (fr : Frame) (v : value) : Frame :=
  mkFrame (code fr) (builtins fr) (globals fr) (own_locals fr)
          (locals_is_globals fr) (data_stack fr)
          v (index fr) (counter fr)
          (last_raised_exception fr) (kw_names fr) (iterators fr).

(** The frame after its locals dictionary has become [m]: when the locals
    are the globals, so have the globals. *)
Definition with_locals (fr : Frame) (m : gmap string value) : Frame :=
  mkFrame (code fr) (builtins fr)
          (if locals_is_globals fr then m else globals fr)
          (if locals_is_globals fr then own_locals fr else m)
          (locals_is_globals fr) (data_stack fr)
          (return_value fr) (index fr) (counter fr)
          (last_raised_exception fr) (kw_names fr) (iterators fr).

(** The frame after its globals dictionary has become [m]. *)
Definition with_globals (fr : Frame) (m : gmap string value) : Frame :=
  mkFrame (code fr) (builtins fr) m (own_locals fr)
          (locals_is_globals fr) (data_stack fr)
          (return_value fr) (index fr) (counter fr)
          (last_raised_exception fr) (kw_names fr) (iterators fr).

Definition with_kw_names (fr : Frame) (ns : list string) : Frame :=
  mkFrame (code fr) (builtins fr) (globals fr) (own_locals fr)
          (locals_is_globals fr) (data_stack fr)
          (return_value fr) (index fr) (counter fr)
          (last_raised_exception fr) ns (iterators fr).

Definition with_iterators (fr : Frame) (st : gmap nat (list value)) : Frame :=
  mkFrame (code fr) (builtins fr) (globals fr) (own_locals fr)
          (locals_is_globals fr) (data_stack fr)
          (return_value fr) (index fr) (counter fr)
          (last_raised_exception fr) (kw_names fr) st.

(** *** Stack primitives *)

Definition top (fr : Frame) : outcome value :=
  subscript (data_stack fr) (-1).

Definition pop (fr : Frame) : outcome (value * Frame) :=
  match last (data_stack fr) with
  | Some v =>
      Ok (v, with_stack fr (take (pred (length (data_stack fr))) (data_stack fr)))
  | None => Raise IndexError
  end.

Definition push (fr : Frame) (values : list value) : Frame :=
  with_stack fr (data_stack fr ++ values).

(** The [n] popped values come deepest first. *)
Definition popn (fr : Frame) (n : Z) : list value * Frame :=
  if 0 <? n then
    (slice_from (data_stack fr) (- n),
     with_stack fr (slice_to (data_stack fr) (- n)))
  else ([], fr).

(** ** Instruction handlers *)

(** Whether the value can be the member of a set: the mutable containers
    cannot, a tuple can when all its items can. *)
Fixpoint hashable (v : value) : bool :=
  match v with
  | VList _ | VDict _ | VSet _ => false
  | VTuple l => forallb hashable l
  | _ => true
  end.

(** The first [Some] among the images of the items. *)
Definition first_some {A B : Type} (g : A -> option B)
  : list A -> option B :=
  fix go (l : list A) : option B :=
    match l with
    | [] => None
    | x :: l' => match g x with Some b => Some b | None => go l' end
    end.

(** The type named by the error of [hash(v)], when [v] cannot be hashed:
    the type of the first mutable container met. *)
Fixpoint unhashable_type (v : value) : option string :=
  match v with
  | VList _ => Some "list"
  | VDict _ => Some "dict"
  | VSet _ => Some "set"
  | VTuple l => first_some unhashable_type l
  | _ => None
  end.

Definition unhashable {A : Type} (t : string) : outcome A :=
  Raise (TypeError ("unhashable type: '" +:+ t +:+ "'")).

Definition is_none (v : value) : bool :=
  match v with VNone => true | _ => false end.

(** A tuple of strings, as [KW_NAMES] constants are. *)
Fixpoint names_of (l : list value) : option (list string) :=
  match l with
  | [] => Some []
  | VStr s :: l' =>
      match names_of l' with Some ns => Some (s :: ns) | None => None end
  | _ => None
  end.

(** Annotation of the binary operators by operand code, as [_BINARIES]. *)
Definition BINARIES (rt : ObjectRuntime) (op : Z)
  : option (value -> value -> outcome value) :=
  match op with
  | 0 => Some (operator_form rt NbAdd)
  | 10 => Some (operator_form rt NbSubtract)
  | 5 => Some (operator_form rt NbMultiply)
  | 11 => Some (operator_form rt NbTrueDivide)
  | 2 => Some (operator_form rt NbFloorDivide)
  | 6 => Some (operator_form rt NbRemainder)
  | 4 => Some (operator_form rt NbMatrixMultiply)
  | 8 => Some (operator_form rt NbPower)
  | 3 => Some (operator_form rt NbLshift)
  | 9 => Some (operator_form rt NbRshift)
  | 1 => Some (operator_form rt NbAnd)
  | 7 => Some (operator_form rt NbOr)
  | 12 => Some (operator_form rt NbXor)
  | 13 => Some (method_form rt NbAdd)
  | 23 => Some (method_form rt NbSubtract)
  | 18 => Some (method_form rt NbMultiply)
  | 24 => Some (method_form rt NbTrueDivide)
  | 15 => Some (method_form rt NbFloorDivide)
  | 19 => Some (method_form rt NbRemainder)
  | 17 => Some (method_form rt NbMatrixMultiply)
  | 21 => Some (method_form rt NbPower)
  | 16 => Some (method_form rt NbLshift)
  | 22 => Some (method_form rt NbRshift)
  | 14 => Some (method_form rt NbAnd)
  | 20 => Some (method_form rt NbOr)
  | 25 => Some (method_form rt NbXor)
  | _ => None
  end.

Section Handlers.
Context (rt : ObjectRuntime).

Definition resume_op (fr : Frame) : outcome Frame := Ok fr.

Definition push_null_op (fr : Frame) : outcome Frame := Ok (push fr [VNone]).

Definition precall_op (fr : Frame) : outcome Frame := Ok fr.

Definition call_op (argc : Z) (fr : Frame) : outcome Frame :=
  let '(all_args, fr) := popn fr argc in
  let '(args, kwargs) :=
    match kw_names fr with
    | [] => (all_args, [])
    | _ :: _ =>
        (slice_to all_args (len all_args - len (kw_names fr)),
         dict_of (zip_names (kw_names fr)
                            (slice_from all_args (- len (kw_names fr)))))
    end in
  let* (func, fr) := pop fr in
  let* below := top fr in
  if is_none below then
    let* (_, fr) := pop fr in
    let* result := call_value rt func args kwargs in
    Ok (push fr [result])
  else
    let obj := func in
    let* (func, fr) := pop fr in
    let* result := call_value rt func (obj :: args) kwargs in
    Ok (push fr [result]).

Definition load_name_op (namei : string) (fr : Frame) : outcome Frame :=
  match locals fr !! namei with
  | Some v => Ok (push fr [v])
  | None =>
      match globals fr !! namei with
      | Some v => Ok (push fr [v])
      | None =>
          match builtins fr !! namei with
          | Some v => Ok (push fr [v])
          | None => Raise NameError
          end
      end
  end.

Definition load_global_op (namei : Z) (val : string) (fr : Frame)
  : outcome Frame :=
  let* fr := if Z.land namei 1 =? 1 then push_null_op fr else Ok fr in
  match globals fr !! val with
  | Some v => Ok (push fr [v])
  | None =>
      match builtins fr !! val with
      | Some v => Ok (push fr [v])
      | None => Raise NameError
      end
  end.

Definition load_const_op (consti : value) (fr : Frame) : outcome Frame :=
  Ok (push fr [consti]).

Definition return_value_op (fr : Frame) : outcome Frame :=
  let* (v, fr) := pop fr in
  Ok (with_return_value fr v).

Definition pop_top_op (fr : Frame) : outcome Frame :=
  let* (_, fr) := pop fr in
  Ok fr.

(** The closure [f] is represented by the data it captures. *)
Definition make_function_op (flags : Z) (fr : Frame) : outcome Frame :=
  let* (c, fr) := pop fr in
  let* (args_default, fr) :=
    if Z.land flags 1 =? 0 then Ok (VTuple [], fr) else pop fr in
  let* (kwargs_default, fr) :=
    if Z.land flags 2 =? 0 then Ok (VDict [], fr) else pop fr in
  match c with
  | VCode c => Ok (push fr [VFunc c args_default kwargs_default])
  | _ => Raise Unembedded
  end.

Definition store_name_op (namei : string) (fr : Frame) : outcome Frame :=
  let* (const, fr) := pop fr in
  Ok (with_locals fr (<[namei := const]> (locals fr))).

Definition store_global_op (namei : string) (fr : Frame) : outcome Frame :=
  let* (v, fr) := pop fr in
  Ok (with_globals fr (<[namei := v]> (globals fr))).

Definition store_fast_op (var_num : string) (fr : Frame) : outcome Frame :=
  let* (const, fr) := pop fr in
  Ok (with_locals fr (<[var_num := const]> (locals fr))).

Definition binary_op_op (op : Z) (fr : Frame) : outcome Frame :=
  let* (rhs, fr) := pop fr in
  let* (lhs, fr) := pop fr in
  match BINARIES rt op with
  | Some fn =>
      let* result := fn lhs rhs in
      Ok (push fr [result])
  | None => Raise KeyError
  end.

(** [iterable.__iter__()] for the sequences of the fragment: a list or a
    tuple yields a new iterator object, an iterator yields itself. *)
Definition get_iter_op (fr : Frame) : outcome Frame :=
  let* (iterable, fr) := pop fr in
  match iterable with
  | VList l | VTuple l =>
      let loc := fresh (dom (iterators fr)) in
      Ok (push (with_iterators fr (<[loc := l]> (iterators fr))) [VIter loc])
  | VIter loc => Ok (push fr [VIter loc])
  | _ => Raise Unembedded
  end.

Definition jump_forward_op (to : Z) (fr : Frame) : outcome Frame :=
  match index fr !! to with
  | Some i => Ok (with_counter fr (i - 1))
  | None => Raise KeyError
  end.

Definition jump_backward_op (to : Z) (fr : Frame) : outcome Frame :=
  match index fr !! to with
  | Some i => Ok (with_counter fr (i - 1))
  | None => Raise KeyError
  end.

(** [__next__] of an iterator object removes and returns its first
    remaining item, and raises [StopIteration] when none remains. *)
Definition for_iter_op (to : Z) (fr : Frame) : outcome Frame :=
  let* it := top fr in
  match it with
  | VIter loc =>
      match iterators fr !! loc with
      | Some (v :: rest) =>
          Ok (push (with_iterators fr (<[loc := rest]> (iterators fr))) [v])
      | Some [] =>
          let* (_, fr) := pop fr in
          jump_forward_op to fr
      | None => Raise Unembedded
      end
  | VObj _ _ | VClass _ _ => Raise Unembedded
  | _ => Raise AttributeError
  end.

Definition pop_jump_forward_if_true_op (to : Z) (fr : Frame) : outcome Frame :=
  let* (cond, fr) := pop fr in
  if truth rt cond then jump_forward_op to fr else Ok fr.

Definition pop_jump_forward_if_false_op (to : Z) (fr : Frame) : outcome Frame :=
  let* (cond, fr) := pop fr in
  if negb (truth rt cond) then jump_forward_op to fr else Ok fr.

Definition pop_jump_backward_if_true_op (to : Z) (fr : Frame) : outcome Frame :=
  let* (cond, fr) := pop fr in
  if truth rt cond then jump_forward_op to fr else Ok fr.

Definition pop_jump_backward_if_false_op (to : Z) (fr : Frame) : outcome Frame :=
  let* (cond, fr) := pop fr in
  if negb (truth rt cond) then jump_forward_op to fr else Ok fr.

Definition jump_if_true_or_pop_op (to : Z) (fr : Frame) : outcome Frame :=
  let* cond := top fr in
  if truth rt cond then jump_forward_op to fr
  else let* (_, fr) := pop fr in Ok fr.

Definition jump_if_false_or_pop_op (to : Z) (fr : Frame) : outcome Frame :=
  let* cond := top fr in
  if negb (truth rt cond) then jump_forward_op to fr
  else let* (_, fr) := pop fr in Ok fr.

Definition load_fast_op (var_num : string) (fr : Frame) : outcome Frame :=
  load_name_op var_num fr.

Definition pop_jump_forward_if_none_op (to : Z) (fr : Frame) : outcome Frame :=
  let* (item, fr) := pop fr in
  if is_none item then jump_forward_op to fr else Ok fr.

Definition build_list_op (count : Z) (fr : Frame) : outcome Frame :=
  let '(values, fr) := popn fr count in
  Ok (push fr [VList values]).

Definition build_set_op (count : Z) (fr : Frame) : outcome Frame :=
  let '(values, fr) := popn fr count in
  if forallb hashable values then Ok (push fr [VSet values])
  else
    match first_some unhashable_type values with
    | Some t => unhashable t
    | None => Raise Unembedded
    end.

Definition format_value_op (flags : Z) (fr : Frame) : outcome Frame :=
  if Z.land flags 4 =? 1 then
    let* (format_spec, fr) := pop fr in
    let* (obj, fr) := pop fr in
    let* result := call_value rt format_spec [obj] [] in
    Ok (push fr [result])
  else
    let* (obj, fr) := pop fr in
    if Z.land flags 3 =? 1 then
      let* s := str_of rt obj in Ok (push fr [s])
    else if Z.land flags 3 =? 2 then
      let* s := repr_of rt obj in Ok (push fr [s])
    else if Z.land flags 3 =? 3 then
      let* s := ascii_of rt obj in Ok (push fr [s])
    else Ok fr.

Definition nop_op (fr : Frame) : outcome Frame := Ok fr.

Definition copy_op (i : Z) (fr : Frame) : outcome Frame :=
  let* v := subscript (data_stack fr) (- i) in
  Ok (push fr [v]).

Definition load_method_op (namei : string) (fr : Frame) : outcome Frame :=
  let* (v, fr) := pop fr in
  let* fr := push_null_op fr in
  let* m := getattr rt v namei in
  Ok (push fr [m]).

(** [popn] returns a list, and the handler pushes that list as it is. *)
Definition build_tuple_op (count : Z) (fr : Frame) : outcome Frame :=
  let '(values, fr) := popn fr count in
  Ok (push fr [VList values]).

Definition kw_names_op (consti : Z) (fr : Frame) : outcome Frame :=
  let* k := subscript (co_consts (code fr)) consti in
  match k with
  | VTuple l =>
      match names_of l with
      | Some ns => Ok (with_kw_names fr ns)
      | None => Raise Unembedded
      end
  | _ => Raise Unembedded
  end.

Definition load_attr_op (namei : string) (fr : Frame) : outcome Frame :=
  let* (obj, fr) := pop fr in
  let* _ := getattribute rt obj namei in
  Ok (push fr [obj]).

Definition swap_op (i : Z) (fr : Frame) : outcome Frame :=
  let* item_i := subscript (data_stack fr) (- i) in
  let* t := top fr in
  let* s := store_subscript (data_stack fr) (- i) t in
  let* s := store_subscript s (-1) item_i in
  Ok (with_stack fr s).
End Handlers.

(** ** Argument binding: the closure [f] built by [make_function_op] *)

Definition ERR_TOO_MANY_POS_ARGS : string := "Too many positional arguments".
Definition ERR_TOO_MANY_KW_ARGS : string := "Too many keyword arguments".
Definition ERR_MULT_VALUES_FOR_ARG : string := "Multiple values for arguments".
Definition ERR_MISSING_POS_ARGS : string := "Missing positional arguments".
Definition ERR_MISSING_KWONLY_ARGS : string := "Missing keyword-only arguments".
Definition ERR_POSONLY_PASSED_AS_KW : string :=
  "Positional-only argument passed as keyword argument".

(** [key in names] *)
Definition name_in (key : string) (names : list string) : bool :=
  existsb (String.eqb key) names.

(** [names.index(key)], for a [key] that occurs in [names]. *)
Fixpoint name_index (names : list string) (key : string) : Z :=
  match names with
  | [] => 0
  | n :: names' => if String.eqb n key then 0 else 1 + name_index names' key
  end.

(** [len(v)] for the sized values of the fragment. *)
Definition value_len (v : value) : outcome Z :=
  match v with
  | VTuple l | VList l => Ok (len l)
  | VDict d => Ok (len d)
  | VStr _ | VSet _ | VObj _ _ => Raise Unembedded
  | _ =>
      let* t := type_name v in
      Raise (TypeError ("object of type '" +:+ t +:+ "' has no len()"))
  end.

(** The items of a tuple or list value. *)
Definition value_items (v : value) : outcome (list value) :=
  match v with
  | VTuple l | VList l => Ok l
  | _ => Raise Unembedded
  end.

(** [range(a, b)] *)
Definition range (a b : Z) : list Z := seqZ a (b - a).

(** [parsed_args[varkw_name][key] = val] *)
Definition collect_keyword (varkw_name : string) (parsed_args : dict value)
    (key : string) (val : value) : outcome (dict value) :=
  match dict_get parsed_args varkw_name with
  | Some (VDict d) =>
      Ok (dict_set parsed_args varkw_name (VDict (dict_set d key val)))
  | Some (VObj _ _) => Raise Unembedded
  | Some (VList _) =>
      Raise (TypeError "list indices must be integers or slices, not str")
  | Some v =>
      let* t := type_name v in
      Raise (TypeError ("'" +:+ t +:+
                        "' object does not support item assignment"))
  | None => Raise KeyError
  end.

(** One round of the loop over [kwargs.items()]. *)
Definition bind_keyword (names : list string) (pos_only_count : Z)
    (has_varkw : bool) (varkw_name : string)
    (parsed_args : dict value) (key : string) (val : value)
  : outcome (dict value) :=
  if negb (name_in key names) then
    if negb has_varkw then Raise (TypeError ERR_TOO_MANY_KW_ARGS)
    else collect_keyword varkw_name parsed_args key val
  else if name_index names key <? pos_only_count then
    if negb has_varkw then Raise (TypeError ERR_POSONLY_PASSED_AS_KW)
    else collect_keyword varkw_name parsed_args key val
  else Ok (dict_set parsed_args key val).

Fixpoint bind_keywords (names : list string) (pos_only_count : Z)
    (has_varkw : bool) (varkw_name : string)
    (parsed_args : dict value) (kwargs : dict value) : outcome (dict value) :=
  match kwargs with
  | [] => Ok parsed_args
  | (key, val) :: kwargs' =>
      let* parsed_args :=
        bind_keyword names pos_only_count has_varkw varkw_name
                     parsed_args key val in
      bind_keywords names pos_only_count has_varkw varkw_name
                    parsed_args kwargs'
  end.

(** The loop over [kw_default_values.items()]. *)
Fixpoint bind_kw_defaults (names : list string) (parsed_args : dict value)
    (items : dict value) : outcome (dict value) :=
  match items with
  | [] => Ok parsed_args
  | (key, val) :: items' =>
      if negb (name_in key names) then Raise (TypeError ERR_TOO_MANY_KW_ARGS)
      else bind_kw_defaults names (dict_set parsed_args key val) items'
  end.

(** The loop over [enumerate(args)]; [nargs] is [len(args)] and [i] the
    position of the first remaining argument. *)
Fixpoint bind_positionals (names : list string) (has_varargs : bool)
    (vararg_name : string) (nargs : Z) (parsed_args : dict value)
    (i : Z) (args : list value) : outcome (dict value) :=
  match args with
  | [] => Ok parsed_args
  | arg_val :: args' =>
      let* stop :=
        if has_varargs then
          match dict_get parsed_args vararg_name with
          | Some v => let* n := value_len v in Ok (nargs - n <=? i)
          | None => Raise KeyError
          end
        else Ok false in
      if (stop : bool) then Ok parsed_args
      else
        let* name := subscript names i in
        if dict_mem parsed_args name
        then Raise (TypeError ERR_MULT_VALUES_FOR_ARG)
        else bind_positionals names has_varargs vararg_name nargs
                              (dict_set parsed_args name arg_val) (i + 1) args'
  end.

(** The loop over [range(len(args), arg_count)]. *)
Fixpoint bind_defaults (names : list string) (arg_count : Z)
    (default_values : value) (kwargs : dict value)
    (parsed_args : dict value) (positions : list Z) : outcome (dict value) :=
  match positions with
  | [] => Ok parsed_args
  | i :: positions' =>
      let* name := subscript names i in
      if dict_mem kwargs name then
        bind_defaults names arg_count default_values kwargs
                      parsed_args positions'
      else
        let* defaults := value_items default_values in
        let shifted_i := i - arg_count + len defaults in
        if (shifted_i <? 0) || (len defaults <=? shifted_i)
        then Raise (TypeError ERR_MISSING_POS_ARGS)
        else
          let* d := subscript defaults shifted_i in
          bind_defaults names arg_count default_values kwargs
                        (dict_set parsed_args name d) positions'
  end.

(** The two closing loops: every listed position must be bound. *)
Fixpoint check_bound (names : list string) (parsed_args : dict value)
    (err : string) (positions : list Z) : outcome unit :=
  match positions with
  | [] => Ok tt
  | i :: positions' =>
      let* name := subscript names i in
      if dict_mem parsed_args name
      then check_bound names parsed_args err positions'
      else Raise (TypeError err)
  end.

(** The body of [f] up to the construction of [f_locals].  The names of the
    collectors are read only when the corresponding flag is set. *)
Definition arg_binding (c : CodeType) (args_default kwargs_default : value)
    (args : list value) (kwargs : dict value) : outcome (dict value) :=
  let parsed_args : dict value := [] in
  let names := co_varnames c in
  let arg_count := co_argcount c in
  let pos_only_count := co_posonlyargcount c in
  let kw_only_count := co_kwonlyargcount c in
  let default_values := args_default in
  let local_variables := co_nlocals c in
  let kw_default_values := kwargs_default in
  let has_varargs := negb (Z.land (co_flags c) 4 =? 0) in
  let has_varkw := negb (Z.land (co_flags c) 8 =? 0) in
  let shift := arg_count + kw_only_count - local_variables in
  let* (vararg_name, parsed_args, shift) :=
    if has_varargs then
      let* n := subscript names shift in
      Ok (n, dict_set parsed_args n (VTuple []), shift + 1)
    else Ok (EmptyString, parsed_args, shift) in
  let* (varkw_name, parsed_args, shift) :=
    if has_varkw then
      let* n := subscript names shift in
      Ok (n, dict_set parsed_args n (VDict []), shift + 1)
    else Ok (EmptyString, parsed_args, shift) in
  let* parsed_args :=
    if arg_count <? len args then
      if negb has_varargs then Raise (TypeError ERR_TOO_MANY_POS_ARGS)
      else Ok (dict_set parsed_args vararg_name
                        (VTuple (slice_from args arg_count)))
    else Ok parsed_args in
  let* parsed_args :=
    match kw_default_values with
    | VDict items => bind_kw_defaults names parsed_args items
    | _ => Raise Unembedded
    end in
  let* parsed_args :=
    bind_keywords names pos_only_count has_varkw varkw_name
                  parsed_args kwargs in
  let* parsed_args :=
    bind_positionals names has_varargs vararg_name (len args)
                     parsed_args 0 args in
  let* parsed_args :=
    bind_defaults names arg_count default_values kwargs parsed_args
                  (range (len args) arg_count) in
  let* _ := check_bound names parsed_args ERR_MISSING_POS_ARGS
                        (range 0 pos_only_count) in
  let* _ := check_bound names parsed_args ERR_MISSING_KWONLY_ARGS
                        (range arg_count (arg_count + kw_only_count)) in
  Ok parsed_args.

(** ** The dispatch loop *)

(** The handler selected for an instruction.  [OTHER_HANDLER] stands for the
    handlers of the source that are not embedded here, [NO_HANDLER] for a
    mnemonic the class has no handler for. *)
Definition execute (rt : ObjectRuntime) (o : opcode) (fr : Frame)
  : outcome Frame :=
  match o with
  | RESUME => resume_op fr
  | PUSH_NULL => push_null_op fr
  | PRECALL => precall_op fr
  | CALL argc => call_op rt argc fr
  | LOAD_NAME namei => load_name_op namei fr
  | LOAD_GLOBAL namei val => load_global_op namei val fr
  | LOAD_CONST consti => load_const_op consti fr
  | RETURN_VALUE => return_value_op fr
  | POP_TOP => pop_top_op fr
  | MAKE_FUNCTION flags => make_function_op flags fr
  | STORE_NAME namei => store_name_op namei fr
  | STORE_GLOBAL namei => store_global_op namei fr
  | STORE_FAST var_num => store_fast_op var_num fr
  | BINARY_OP op => binary_op_op rt op fr
  | GET_ITER => get_iter_op fr
  | JUMP_FORWARD to => jump_forward_op to fr
  | JUMP_BACKWARD to => jump_backward_op to fr
  | FOR_ITER to => for_iter_op to fr
  | POP_JUMP_FORWARD_IF_TRUE to => pop_jump_forward_if_true_op rt to fr
  | POP_JUMP_FORWARD_IF_FALSE to => pop_jump_forward_if_false_op rt to fr
  | POP_JUMP_BACKWARD_IF_TRUE to => pop_jump_backward_if_true_op rt to fr
  | POP_JUMP_BACKWARD_IF_FALSE to => pop_jump_backward_if_false_op rt to fr
  | JUMP_IF_TRUE_OR_POP to => jump_if_true_or_pop_op rt to fr
  | JUMP_IF_FALSE_OR_POP to => jump_if_false_or_pop_op rt to fr
  | LOAD_FAST var_num => load_fast_op var_num fr
  | POP_JUMP_FORWARD_IF_NONE to => pop_jump_forward_if_none_op to fr
  | BUILD_LIST count => build_list_op count fr
  | BUILD_SET count => build_set_op count fr
  | FORMAT_VALUE flags => format_value_op rt flags fr
  | NOP => nop_op fr
  | COPY i => copy_op i fr
  | LOAD_METHOD namei => load_method_op rt namei fr
  | BUILD_TUPLE count => build_tuple_op count fr
  | KW_NAMES consti => kw_names_op consti fr
  | LOAD_ATTR namei => load_attr_op rt namei fr
  | SWAP i => swap_op i fr
  | OTHER_HANDLER _ => Raise Unembedded
  | NO_HANDLER _ => Raise AttributeError
  end.

Definition is_return (o : opcode) : bool :=
  match o with RETURN_VALUE => true | _ => false end.

(** [self.index[ins_lst[i].offset] = i] for the instructions from position
    [i] on. *)
Fixpoint build_index (i : Z) (ins_lst : list instruction) (ix : gmap Z Z)
  : gmap Z Z :=
  match ins_lst with
  | [] => ix
  | ins :: rest => build_index (i + 1) rest (<[offset ins := i]> ix)
  end.

(** One round of the [while True] loop; the flag tells whether the loop is
    left by a [break]. *)
Definition round (rt : ObjectRuntime) (ins_lst : list instruction)
    (fr : Frame) : outcome (Frame * bool) :=
  if len ins_lst <=? counter fr then Ok (fr, true)
  else
    let* ins := subscript ins_lst (counter fr) in
    let* fr := execute rt (operation ins) fr in
    if is_return (operation ins) then Ok (fr, true)
    else Ok (with_counter fr (counter fr + 1), false).

(** The loop, bounded by [fuel] rounds; [None] means the bound was reached
    before the loop was left. *)
Fixpoint run_loop (rt : ObjectRuntime) (fuel : nat)
    (ins_lst : list instruction) (fr : Frame) : option (outcome Frame) :=
  match fuel with
  | O => None
  | S fuel' =>
      match round rt ins_lst fr with
      | Raise e => Some (Raise e)
      | Ok (fr', true) => Some (Ok fr')
      | Ok (fr', false) => run_loop rt fuel' ins_lst fr'
      end
  end.

(** The positions fetched by the loop, in order. *)
Fixpoint fetched (rt : ObjectRuntime) (fuel : nat)
    (ins_lst : list instruction) (fr : Frame) : list Z :=
  match fuel with
  | O => []
  | S fuel' =>
      if len ins_lst <=? counter fr then []
      else
        counter fr ::
        match round rt ins_lst fr with
        | Ok (fr', false) => fetched rt fuel' ins_lst fr'
        | _ => []
        end
  end.

Definition prepare (fr : Frame) : Frame :=
  with_index fr (build_index 0 (get_instructions (code fr)) (index fr)).

Definition run (rt : ObjectRuntime) (fuel : nat) (fr : Frame)
  : option (outcome value) :=
  match run_loop rt fuel (get_instructions (code fr)) (prepare fr) with
  | Some (Ok fr') => Some (Ok (return_value fr'))
  | Some (Raise e) => Some (Raise e)
  | None => None
  end.

(** [f_locals = dict(self.locals); f_locals.update(parsed_args)] *)
Definition f_locals (self_locals : gmap string value)
    (parsed_args : dict value) : gmap string value :=
  foldl (fun m kv => <[fst kv := snd kv]> m) self_locals parsed_args.

(** The closure [f]: [self] is the frame that executed [MAKE_FUNCTION], as
    it stands when the function is called. *)
Definition f (rt : ObjectRuntime) (fuel : nat) (self : Frame)
    (c : CodeType) (args_default kwargs_default : value)
    (args : list value) (kwargs : dict value) : option (outcome value) :=
  match arg_binding c args_default kwargs_default args kwargs with
  | Raise e => Some (Raise e)
  | Ok parsed_args =>
      run rt fuel
          (new_frame c (builtins self) (globals self)
                     (f_locals (locals self) parsed_args) (iterators self))
  end.

(** [VirtualMachine.run]: the first frame is given one new dictionary as
    its globals and as its locals. *)
Definition VirtualMachine_run (rt : ObjectRuntime) (fuel : nat)
    (host_builtins : gmap string value) (code_obj : CodeType)
  : option (outcome value) :=
  run rt fuel (new_frame_shared code_obj host_builtins ∅ ∅).

(** ** A concrete object runtime *)

(** Integers, booleans and strings with their additive, multiplicative and
    bitwise operators, instances that carry attributes and can be called,
    class objects that carry class attributes, and the truth values of the
    built-in types.  The classes of the instances define [__call__] and
    nothing else; calling an instance returns the record of the call: its
    class, its positional and its keyword arguments. *)

Definition int_operand (v : value) : option Z :=
  match v with
  | VInt z => Some z
  | VBool b => Some (if b then 1 else 0)
  | _ => None
  end.

(** A number method of [int]: it declines unless both operands are
    integers. *)
Definition int_slot (fn : Z -> Z -> Z) (v w : value) : outcome value :=
  match int_operand v, int_operand w with
  | Some a, Some b => Ok (VInt (fn a b))
  | _, _ => Ok VNotImplemented
  end.

(** A bitwise method of [bool]: a boolean for two booleans, and the method
    of [int] otherwise. *)
Definition bool_slot (fb : bool -> bool -> bool) (fn : Z -> Z -> Z)
    (v w : value) : outcome value :=
  match v, w with
  | VBool a, VBool b => Ok (VBool (fb a b))
  | _, _ => int_slot fn v w
  end.

Definition unembedded_slot : option (value -> value -> outcome value) :=
  Some (fun _ _ => Raise Unembedded).

Definition unembedded_method : option (value -> outcome value) :=
  Some (fun _ => Raise Unembedded).

Definition host_nb_slot (op : binop) (v : value)
  : option (value -> value -> outcome value) :=
  match v with
  | VInt _ =>
      match op with
      | NbAdd => Some (int_slot Z.add)
      | NbSubtract => Some (int_slot Z.sub)
      | NbMultiply => Some (int_slot Z.mul)
      | NbAnd => Some (int_slot Z.land)
      | NbOr => Some (int_slot Z.lor)
      | NbXor => Some (int_slot Z.lxor)
      | NbMatrixMultiply => None
      | _ => unembedded_slot
      end
  | VBool _ =>
      match op with
      | NbAdd => Some (int_slot Z.add)
      | NbSubtract => Some (int_slot Z.sub)
      | NbMultiply => Some (int_slot Z.mul)
      | NbAnd => Some (bool_slot andb Z.land)
      | NbOr => Some (bool_slot orb Z.lor)
      | NbXor => Some (bool_slot xorb Z.lxor)
      | NbMatrixMultiply => None
      | _ => unembedded_slot
      end
  | VStr _ =>
      match op with
      | NbRemainder => unembedded_slot
      | _ => None
      end
  | VSet _ | VDict _ | VClass _ _ => unembedded_slot
  | VNone | VNotImplemented | VList _ | VTuple _ | VIter _ | VCode _
  | VFunc _ _ _ | VObj _ _ => None
  end.

(** The largest repetition count and sequence length of the runtime. *)
Definition ssize_max : Z := 2 ^ 63 - 1.

Definition host_index_of (n : value) : option (outcome Z) :=
  match int_operand n with
  | Some z =>
      Some (if (- ssize_max - 1 <=? z) && (z <=? ssize_max) then Ok z
            else Raise Unembedded)
  | None => None
  end.

Definition dquote : string := String (Ascii.ascii_of_nat 34) EmptyString.

Definition str_concat (s : string) (y : value) : outcome value :=
  match y with
  | VStr t => Ok (VStr (String.append s t))
  | _ =>
      let* t := type_name y in
      Raise (TypeError ("can only concatenate str (not " +:+ dquote +:+ t +:+
                        dquote +:+ ") to str"))
  end.

Fixpoint repeat_string (n : nat) (s : string) : string :=
  match n with
  | O => EmptyString
  | S n' => String.append s (repeat_string n' s)
  end.

Definition str_repeat (s : string) (count : Z) : outcome value :=
  if Z.of_nat (String.length s) * count <=? ssize_max
  then Ok (VStr (repeat_string (Z.to_nat count) s))
  else Raise Unembedded.

Definition host_sq_concat (v : value) : option (value -> outcome value) :=
  match v with
  | VStr s => Some (str_concat s)
  | VList _ | VTuple _ => unembedded_method
  | _ => None
  end.

Definition host_sq_repeat (v : value) : option (Z -> outcome value) :=
  match v with
  | VStr s => Some (str_repeat s)
  | VList _ | VTuple _ => Some (fun _ => Raise Unembedded)
  | _ => None
  end.

(** [s.__mul__(y)]: the count is converted before the repetition slot is
    called. *)
Definition str_times (s : string) (y : value) : outcome value :=
  match host_index_of y with
  | Some count => let* c := count in str_repeat s c
  | None =>
      let* t := type_name y in
      Raise (TypeError ("'" +:+ t +:+
                        "' object cannot be interpreted as an integer"))
  end.

(** The name of the method of a binary operator. *)
Definition dunder_name (op : binop) : string :=
  match op with
  | NbAdd => "__add__"
  | NbAnd => "__and__"
  | NbFloorDivide => "__floordiv__"
  | NbLshift => "__lshift__"
  | NbMatrixMultiply => "__matmul__"
  | NbMultiply => "__mul__"
  | NbRemainder => "__mod__"
  | NbOr => "__or__"
  | NbPower => "__pow__"
  | NbRshift => "__rshift__"
  | NbSubtract => "__sub__"
  | NbTrueDivide => "__truediv__"
  | NbXor => "__xor__"
  end.

Definition host_same_type (x y : value) : bool :=
  match x, y with
  | VNone, VNone | VNotImplemented, VNotImplemented
  | VBool _, VBool _ | VInt _, VInt _ | VStr _, VStr _
  | VList _, VList _ | VTuple _, VTuple _ | VSet _, VSet _
  | VDict _, VDict _ | VIter _, VIter _ | VCode _, VCode _
  | VFunc _ _ _, VFunc _ _ _ | VClass _ _, VClass _ _ => true
  | VObj c _, VObj d _ => String.eqb c d
  | _, _ => false
  end.

(** [bool] inherits the arithmetic methods of [int] and overrides its
    bitwise ones. *)
Definition host_same_slot (op : binop) (x y : value) : bool :=
  match x, y with
  | VInt _, VBool _ | VBool _, VInt _ =>
      match op with
      | NbAnd | NbOr | NbXor => false
      | _ => true
      end
  | _, _ => false
  end.

(** [bool] is the one proper subtype among the types of the fragment. *)
Definition host_is_subtype (w v : value) : bool :=
  host_same_type w v ||
  match w, v with
  | VBool _, VInt _ => true
  | _, _ => false
  end.

Definition host_truth (v : value) : bool :=
  match v with
  | VNone => false
  | VBool b => b
  | VInt z => negb (z =? 0)
  | VStr s => negb (String.eqb s EmptyString)
  | VList [] | VTuple [] | VSet [] | VDict [] => false
  | _ => true
  end.

(** [getattr(v, name)].  Every object has more attributes than the ones it
    carries here, all of them with names between double underscores, and a
    class object has the attributes of its metaclass: a lookup that finds
    nothing is answered only where no such attribute can exist. *)
Definition host_getattr (v : value) (name : string) : outcome value :=
  match v with
  | VObj _ attrs =>
      match dict_get attrs name with
      | Some a => Ok a
      | None =>
          if String.prefix "__" name then Raise Unembedded
          else Raise AttributeError
      end
  | VClass _ attrs =>
      match dict_get attrs name with
      | Some a => Ok a
      | None => Raise Unembedded
      end
  | _ => Raise Unembedded
  end.

(** [v.__getattribute__(name)].  On an instance the method is bound to the
    instance and looks the attribute up.  On a class object the lookup of
    [__getattribute__] finds the unbound method of [object], and the call
    takes [name] as the instance and misses the name argument. *)
Definition host_getattribute (v : value) (name : string) : outcome value :=
  match v with
  | VObj _ attrs =>
      if dict_mem attrs "__getattribute__" then Raise Unembedded
      else host_getattr v name
  | VClass _ attrs =>
      if dict_mem attrs "__getattribute__" then Raise Unembedded
      else Raise (TypeError "expected 1 argument, got 0")
  | _ => Raise Unembedded
  end.

Definition host_call (func : value) (args : list value) (kwargs : dict value)
  : outcome value :=
  match func with
  | VObj cls _ => Ok (VTuple [VStr cls; VTuple args; VDict kwargs])
  | VFunc _ _ _ | VCode _ | VClass _ _ => Raise Unembedded
  | _ =>
      let* t := type_name func in
      Raise (TypeError ("'" +:+ t +:+ "' object is not callable"))
  end.

(** [x.__op__]: the methods of [int] and [str], and for an instance the
    attribute of that name it carries. *)
Definition host_dunder (op : binop) (x : value)
  : option (value -> outcome value) :=
  match x with
  | VInt _ =>
      match host_nb_slot op x with
      | Some slot => Some (slot x)
      | None => None
      end
  | VStr s =>
      match op with
      | NbAdd => Some (str_concat s)
      | NbMultiply => Some (str_times s)
      | NbRemainder => unembedded_method
      | _ => None
      end
  | VNone => None
  | VObj _ attrs =>
      match dict_get attrs (dunder_name op) with
      | Some m => Some (fun y => host_call m [y] [])
      | None => None
      end
  | _ => unembedded_method
  end.

Definition host_str (v : value) : outcome value :=
  match v with
  | VStr s => Ok (VStr s)
  | _ => Raise Unembedded
  end.

(** [repr] and [ascii] are left out of the concrete runtime. *)
Definition host_repr (v : value) : outcome value := Raise Unembedded.

Definition host : ObjectRuntime := {|
  call_value := host_call;
  getattr := host_getattr;
  getattribute := host_getattribute;
  str_of := host_str;
  repr_of := host_repr;
  ascii_of := host_repr;
  truth := host_truth;
  dunder := host_dunder;
  nb_slot := host_nb_slot;
  sq_concat := host_sq_concat;
  sq_repeat := host_sq_repeat;
  index_of := host_index_of;
  same_type := host_same_type;
  same_slot := host_same_slot;
  is_subtype := host_is_subtype
|}.

(** ** Scenarios *)

Definition no_code : CodeType := Code [] 0 0 0 0 0 [] [].

Definition empty_frame : Frame := new_frame no_code ∅ ∅ ∅ ∅.

(** A call site [g(1, k=2)] with the null marker below the callable. *)
Definition keyword_site : Frame :=
  with_kw_names
    (with_stack empty_frame [VNone; VObj "g" []; VInt 1; VInt 2]) ["k"].

(** A call site whose callable sits below a second, non-null value. *)
Definition method_site : Frame :=
  with_stack empty_frame [VObj "method" []; VObj "receiver" []; VInt 1].

(** Two calls in a row, [g(1)] passed as [g(a=1)] and then [g(2)]. *)
Definition two_calls : CodeType :=
  Code [] 0 0 0 0 0 [VTuple [VStr "a"]]
    [Instruction 0 PUSH_NULL;
     Instruction 2 (LOAD_NAME "g");
     Instruction 4 (LOAD_CONST (VInt 1));
     Instruction 6 (KW_NAMES 0);
     Instruction 8 PRECALL;
     Instruction 10 (CALL 1);
     Instruction 12 POP_TOP;
     Instruction 14 PUSH_NULL;
     Instruction 16 (LOAD_NAME "g");
     Instruction 18 (LOAD_CONST (VInt 2));
     Instruction 20 PRECALL;
     Instruction 22 (CALL 1);
     Instruction 24 RETURN_VALUE].

Definition two_calls_frame : Frame :=
  new_frame two_calls ∅ {[ "g" := VObj "g" [] ]} ∅ ∅.

(** [def f(a): x = ...], a function with one parameter and one local. *)
Definition one_param_one_local : CodeType :=
  Code ["a"; "x"] 1 0 0 2 3 [] [].

(** [def f(a, **kw): x = ...] *)
Definition one_param_collector_one_local : CodeType :=
  Code ["a"; "kw"; "x"] 1 0 0 3 11 [] [].

(** [def f(a, b=10)] *)
Definition scenario_two : CodeType := Code ["a"; "b"] 2 0 0 2 3 [] [].

(** The content of a dictionary, as a finite map. *)
Definition as_mapping (d : dict value) : gmap string value := f_locals ∅ d.

Definition binding_of (r : outcome (dict value))
  : outcome (gmap string value) :=
  match r with
  | Ok d => Ok (as_mapping d)
  | Raise e => Raise e
  end.

(** The operator selected by each of the first thirteen operand codes of
    [BINARY_OP]. *)
Definition nb_operator (op : Z) : option binop :=
  match op with
  | 0 => Some NbAdd
  | 1 => Some NbAnd
  | 2 => Some NbFloorDivide
  | 3 => Some NbLshift
  | 4 => Some NbMatrixMultiply
  | 5 => Some NbMultiply
  | 6 => Some NbRemainder
  | 7 => Some NbOr
  | 8 => Some NbPower
  | 9 => Some NbRshift
  | 10 => Some NbSubtract
  | 11 => Some NbTrueDivide
  | 12 => Some NbXor
  | _ => None
  end.

(** The operands of [2 * "ab"]. *)
Definition int_times_str : Frame :=
  with_stack empty_frame [VInt 2; VStr "ab"].

(** The operands of [1 + "a"]. *)
Definition int_plus_str : Frame :=
  with_stack empty_frame [VInt 1; VStr "a"].

(** The operands of [1 + 2]. *)
Definition int_plus_int : Frame :=
  with_stack empty_frame [VInt 1; VInt 2].

(** A loop that jumps over one instruction. *)
Definition skip_code : list instruction :=
  [Instruction 0 (JUMP_FORWARD 4);
   Instruction 2 (LOAD_CONST (VInt 1));
   Instruction 4 (LOAD_CONST (VInt 2));
   Instruction 6 RETURN_VALUE].

Definition skip_frame : Frame :=
  prepare (new_frame (Code [] 0 0 0 0 0 [] skip_code) ∅ ∅ ∅ ∅).

(** The loop [for x in <iterator on the stack>: pass], followed by
    [return None]. *)
Definition loop_code : list instruction :=
  [Instruction 0 (FOR_ITER 6);
   Instruction 2 (STORE_FAST "x");
   Instruction 4 (JUMP_BACKWARD 0);
   Instruction 6 (LOAD_CONST VNone);
   Instruction 8 RETURN_VALUE].

Definition loop_index : gmap Z Z := build_index 0 loop_code ∅.

(** [k] rounds of the loop, none of which leaves it. *)
Fixpoint rounds (rt : ObjectRuntime) (k : nat) (ins_lst : list instruction)
    (fr : Frame) : option Frame :=
  match k with
  | O => Some fr
  | S k' =>
      match round rt ins_lst fr with
      | Ok (fr', false) => rounds rt k' ins_lst fr'
      | _ => None
      end
  end.

(** A frame about to fetch the [FOR_ITER] at position [head], with the
    iterator [loc] on top of the stack [s] and the items [xs] left in it. *)
Definition at_loop_head (ix : gmap Z Z) (head : Z) (s : list value)
    (loc : nat) (fr : Frame) (xs : list value) : Prop :=
  index fr = ix /\ counter fr = head /\
  data_stack fr = s ++ [VIter loc] /\ iterators fr !! loc = Some xs.

(** The frame in which the body of the loop starts: the frame at the head
    of the loop after [FOR_ITER] has produced the item [v], leaving [rest]
    in the iterator, and the loop has incremented the pointer. *)
Definition enter_body (head : Z) (s : list value) (loc : nat) (fr : Frame)
    (v : value) (rest : list value) : Frame :=
  with_counter
    (with_stack (with_iterators fr (<[loc := rest]> (iterators fr)))
                (s ++ [VIter loc; v]))
    (head + 1).

(** How many times the position [p] occurs in a list of fetched
    positions. *)
Definition times (p : Z) (positions : list Z) : nat :=
  length (filter (fun q => q = p) positions).

(** The body of a loop, under a loop invariant: [inv done fr] is what holds
    of the frame [fr] at the head of the loop once the items [done] have
    been consumed.  From a frame at the head that satisfies the invariant
    and has the item [v] to come, the body, entered with [v] above the
    iterator, comes back to the head with the item consumed, the iterator
    untouched and the invariant established for [done ++ [v]], without
    fetching the head or its own first instruction on the way. *)
Definition body_returns (rt : ObjectRuntime) (ins_lst : list instruction)
    (ix : gmap Z Z) (head : Z) (s : list value) (loc : nat)
    (inv : list value -> Frame -> Prop) : Prop :=
  forall (fr : Frame) (done : list value) (v : value) (rest : list value),
    at_loop_head ix head s loc fr (v :: rest) ->
    inv done fr ->
    exists (k : nat) (fr' : Frame),
      rounds rt k ins_lst (enter_body head s loc fr v rest) = Some fr' /\
      at_loop_head ix head s loc fr' rest /\
      inv (done ++ [v]) fr' /\
      times head (fetched rt k ins_lst (enter_body head s loc fr v rest))
        = 0%nat /\
      times (head + 1) (fetched rt k ins_lst (enter_body head s loc fr v rest))
        = 1%nat.

(** The loop entered with a three-item iterator. *)
Definition three_items : Frame :=
  with_iterators
    (with_stack
       (prepare (new_frame (Code [] 0 0 0 0 0 [] loop_code) ∅ ∅ ∅ ∅))
       [VIter 0])
    {[ 0%nat := [VInt 1; VInt 2; VInt 3] ]}.

(** The program [total = 0; for x in [1, 2, 3]: total += x], followed by
    the return of [total]. *)
Definition sum_loop : list instruction :=
  [Instruction 0 (LOAD_CONST (VInt 0));
   Instruction 2 (STORE_NAME "total");
   Instruction 4 (LOAD_CONST (VInt 1));
   Instruction 6 (LOAD_CONST (VInt 2));
   Instruction 8 (LOAD_CONST (VInt 3));
   Instruction 10 (BUILD_LIST 3);
   Instruction 12 GET_ITER;
   Instruction 14 (FOR_ITER 28);
   Instruction 16 (STORE_NAME "x");
   Instruction 18 (LOAD_NAME "total");
   Instruction 20 (LOAD_NAME "x");
   Instruction 22 (BINARY_OP 13);
   Instruction 24 (STORE_NAME "total");
   Instruction 26 (JUMP_BACKWARD 14);
   Instruction 28 (LOAD_NAME "total");
   Instruction 30 RETURN_VALUE].

Definition sum_code : CodeType := Code [] 0 0 0 0 0 [] sum_loop.

Definition sum_index : gmap Z Z := build_index 0 sum_loop ∅.

(** The sum of the integers of a list of values. *)
Definition sum_of (vs : list value) : Z :=
  foldr (fun v acc => match v with VInt z => z + acc | _ => acc end) 0 vs.

Definition is_int (v : value) : Prop :=
  match v with VInt _ => True | _ => False end.

(** The invariant of the loop of [sum_loop]: [total] is bound to the sum of
    the items consumed, and the items to come are integers. *)
Definition sum_inv (loc : nat) (done : list value) (fr : Frame) : Prop :=
  locals fr !! "total" = Some (VInt (sum_of done)) /\
  forall items, iterators fr !! loc = Some items -> Forall is_int items.

(** The first frame of the virtual machine on [sum_loop], as it reaches the
    head of the loop. *)
Definition sum_head : Frame :=
  with_counter
    (with_iterators
       (with_stack
          (with_locals (prepare (new_frame_shared sum_code ∅ ∅ ∅))
                       {[ "total" := VInt 0 ]})
          [VIter 0])
       {[ 0%nat := [VInt 1; VInt 2; VInt 3] ]})
    7.

(** The class object of [class C: x = 1], on top of the stack. *)
Definition class_attr_site : Frame :=
  with_stack empty_frame [VInt 7; VClass "C" [("x", VInt 1)]].

(** An object with the attribute [x] on top of the stack. *)
Definition attr_site : Frame :=
  with_stack empty_frame [VInt 7; VObj "point" [("x", VInt 1)]].

(** ** Further handlers *)

(** The handlers below are not reached through [execute]; they are embedded
    on their own, over the same frames. *)

(** [iter(v)] run to exhaustion: the items in order, and the frame after
    the iteration.  An iterator object is left exhausted; a dictionary
    yields its keys. *)
Definition iterate (fr : Frame) (v : value) : outcome (list value * Frame) :=
  match v with
  | VList l | VTuple l => Ok (l, fr)
  | VDict d => Ok (map (fun kv => VStr (fst kv)) d, fr)
  | VIter loc =>
      match iterators fr !! loc with
      | Some items => Ok (items, with_iterators fr (<[loc := []]> (iterators fr)))
      | None => Raise Unembedded
      end
  | VStr _ | VSet _ | VObj _ _ => Raise Unembedded
  | _ =>
      let* t := type_name v in
      Raise (TypeError ("'" +:+ t +:+ "' object is not iterable"))
  end.

Definition unpack_sequence_op (count : Z) (fr : Frame) : outcome Frame :=
  let* t := top fr in
  let* n := value_len t in
  if negb (n =? count) then Raise ValueError
  else
    let* (iterable, fr) := pop fr in
    let* (items, fr) := iterate fr iterable in
    Ok (push fr (rev items)).

(** [sequence[key]] for a list or a tuple; [kind] is the name of the
    sequence type. *)
Definition sequence_item (kind : string) (l : list value) (key : value)
  : outcome value :=
  match key with
  | VObj _ _ => Raise Unembedded
  | _ =>
      match int_operand key with
      | Some i => subscript l i
      | None =>
          let* t := type_name key in
          Raise (TypeError (kind +:+
                            " indices must be integers or slices, not " +:+ t))
      end
  end.

(** [container[key]] for the containers of the fragment. *)
Definition getitem (container key : value) : outcome value :=
  match container with
  | VList l => sequence_item "list" l key
  | VTuple l => sequence_item "tuple" l key
  | VDict d =>
      match key with
      | VStr k =>
          match dict_get d k with
          | Some v => Ok v
          | None => Raise KeyError
          end
      | VObj _ _ => Raise Unembedded
      | _ =>
          match unhashable_type key with
          | Some t => unhashable t
          | None => Raise KeyError
          end
      end
  | VStr _ | VObj _ _ | VClass _ _ => Raise Unembedded
  | _ =>
      let* t := type_name container in
      Raise (TypeError ("'" +:+ t +:+ "' object is not subscriptable"))
  end.

Definition binary_subscr_op (fr : Frame) : outcome Frame :=
  let* (key, fr) := pop fr in
  let* (container, fr) := pop fr in
  let* v := getitem container key in
  Ok (push fr [v]).

(** A key of the dictionaries of the fragment. *)
Definition dict_key (v : value) : outcome string :=
  match v with
  | VStr k => Ok k
  | _ =>
      match unhashable_type v with
      | Some t => unhashable t
      | None => Raise Unembedded
      end
  end.

(** The loop of [build_const_key_map_op] over [range(count)]. *)
Fixpoint const_key_items (key_tuple : value) (data : list value)
    (item_map : dict value) (positions : list Z) : outcome (dict value) :=
  match positions with
  | [] => Ok item_map
  | i :: positions' =>
      let* v := subscript data i in
      let* key := getitem key_tuple (VInt i) in
      let* k := dict_key key in
      const_key_items key_tuple data (dict_set item_map k v) positions'
  end.

Definition build_const_key_map_op (count : Z) (fr : Frame) : outcome Frame :=
  let '(data, fr) := popn fr (count + 1) in
  let* key_tuple := subscript data (-1) in
  let* item_map := const_key_items key_tuple data [] (range 0 count) in
  Ok (push fr [VDict item_map]).

(** The loop of [build_map_op] over [range(0, 2 * count, 2)], given as the
    list of the half positions. *)
Fixpoint map_items (data : list value) (item_map : dict value)
    (halves : list Z) : outcome (dict value) :=
  match halves with
  | [] => Ok item_map
  | j :: halves' =>
      let i := 2 * j in
      let* v := subscript data (i + 1) in
      let* key := subscript data i in
      let* k := dict_key key in
      map_items data (dict_set item_map k v) halves'
  end.

Definition build_map_op (count : Z) (fr : Frame) : outcome Frame :=
  let '(data, fr) := popn fr (2 * count) in
  let* item_map := map_items data [] (range 0 count) in
  Ok (push fr [VDict item_map]).

(** [sep.join(strings)] with the empty separator, from the item of
    position [i] on: the first item that is no string is reported with its
    position and its type. *)
Fixpoint join_strings_from (i : nat) (strings : list value) : outcome string :=
  match strings with
  | [] => Ok EmptyString
  | VStr s :: rest =>
      let* t := join_strings_from (S i) rest in Ok (String.append s t)
  | v :: _ =>
      let* t := type_name v in
      Raise (TypeError ("sequence item " +:+ pretty i +:+
                        ": expected str instance, " +:+ t +:+ " found"))
  end.

Definition join_strings (strings : list value) : outcome string :=
  join_strings_from 0 strings.

Definition build_string_op (count : Z) (fr : Frame) : outcome Frame :=
  let '(strings, fr) := popn fr count in
  let* s := join_strings strings in
  Ok (push fr [VStr s]).

Definition list_to_tuple_op (fr : Frame) : outcome Frame :=
  let* (lst, fr) := pop fr in
  let* (items, fr) := iterate fr lst in
  Ok (push fr [VTuple items]).

(** The instructions whose handler may redirect the instruction pointer. *)
Definition is_jump (o : opcode) : bool :=
  match o with
  | JUMP_FORWARD _ | JUMP_BACKWARD _ | FOR_ITER _
  | POP_JUMP_FORWARD_IF_TRUE _ | POP_JUMP_FORWARD_IF_FALSE _
  | POP_JUMP_BACKWARD_IF_TRUE _ | POP_JUMP_BACKWARD_IF_FALSE _
  | JUMP_IF_TRUE_OR_POP _ | JUMP_IF_FALSE_OR_POP _
  | POP_JUMP_FORWARD_IF_NONE _ => true
  | _ => false
  end.

(** A code unit that returns the list of two constants, with an
    instruction after the return. *)
Definition two_consts : CodeType :=
  Code [] 0 0 0 0 0 []
    [Instruction 0 (LOAD_CONST (VInt 1));
     Instruction 2 (LOAD_CONST (VInt 2));
     Instruction 4 (BUILD_LIST 2);
     Instruction 6 RETURN_VALUE;
     Instruction 8 (NO_HANDLER "CACHE")].

(** The keys [ks] and the values [vs] as [BUILD_MAP] finds them on the
    stack: each key followed by its value. *)
Fixpoint interleave (ks : list string) (vs : list value) : list value :=
  match ks, vs with
  | k :: ks', v :: vs' => VStr k :: v :: interleave ks' vs'
  | _, _ => []
  end.

(** * Properties *)

(** ** Sequences and the stack primitives *)

Lemma len_app {A : Type} (l k : list A) : len (l ++ k) = len l + len k.
Proof. unfold len. rewrite length_app. lia. Qed.

Lemma len_nonneg {A : Type} (l : list A) : 0 <= len l.
Proof. unfold len. lia. Qed.

Lemma slice_from_suffix {A : Type} (s vs : list A) :
  0 < len vs -> slice_from (s ++ vs) (- len vs) = vs.
Proof.
  intros Hpos. unfold slice_from, slice_bound.
  replace (- len vs <? 0) with true by (symmetry; apply Z.ltb_lt; lia).
  rewrite len_app.
  replace (Z.to_nat (Z.max 0 (len s + len vs + - len vs))) with (length s)
    by (unfold len; lia).
  apply drop_app_length.
Qed.

Lemma slice_to_suffix {A : Type} (s vs : list A) :
  0 < len vs -> slice_to (s ++ vs) (- len vs) = s.
Proof.
  intros Hpos. unfold slice_to, slice_bound.
  replace (- len vs <? 0) with true by (symmetry; apply Z.ltb_lt; lia).
  rewrite len_app.
  replace (Z.to_nat (Z.max 0 (len s + len vs + - len vs))) with (length s)
    by (unfold len; lia).
  apply take_app_length.
Qed.

Lemma slice_to_prefix {A : Type} (s vs : list A) :
  slice_to (s ++ vs) (len (s ++ vs) - len vs) = s.
Proof.
  unfold slice_to, slice_bound. rewrite len_app.
  pose proof (len_nonneg s). pose proof (len_nonneg vs).
  replace (len s + len vs - len vs <? 0) with false
    by (symmetry; apply Z.ltb_ge; lia).
  replace (Z.to_nat (Z.min (len s + len vs - len vs) (len s + len vs)))
    with (length s) by (unfold len in *; lia).
  apply take_app_length.
Qed.

Lemma with_stack_same (fr : Frame) : with_stack fr (data_stack fr) = fr.
Proof. destruct fr; reflexivity. Qed.

Lemma with_stack_twice (fr : Frame) (s t : list value) :
  with_stack (with_stack fr s) t = with_stack fr t.
Proof. reflexivity. Qed.

Lemma subscript_last {A : Type} (s : list A) (v : A) :
  subscript (s ++ [v]) (-1) = Ok v.
Proof.
  unfold subscript. cbv zeta. change (-1 <? 0) with true. cbv iota.
  rewrite len_app. change (len [v]) with 1.
  pose proof (len_nonneg s).
  replace (len s + 1 + -1 <? 0) with false by (symmetry; apply Z.ltb_ge; lia).
  replace (Z.to_nat (len s + 1 + -1)) with (length s) by (unfold len; lia).
  rewrite list_lookup_middle; reflexivity.
Qed.

Lemma top_snoc (fr : Frame) (s : list value) (v : value) :
  data_stack fr = s ++ [v] -> top fr = Ok v.
Proof. intros E. unfold top. rewrite E. apply subscript_last. Qed.

Lemma pop_snoc (fr : Frame) (s : list value) (v : value) :
  data_stack fr = s ++ [v] -> pop fr = Ok (v, with_stack fr s).
Proof.
  intros E. unfold pop. rewrite E, last_snoc, length_app. simpl.
  replace (Nat.pred (length s + 1)) with (length s) by lia.
  rewrite take_app_length. reflexivity.
Qed.

Lemma popn_suffix (fr : Frame) (s vs : list value) :
  data_stack fr = s ++ vs -> popn fr (len vs) = (vs, with_stack fr s).
Proof.
  intros E. unfold popn. destruct (0 <? len vs) eqn:Hn.
  - apply Z.ltb_lt in Hn. rewrite E.
    rewrite slice_from_suffix, slice_to_suffix by assumption. reflexivity.
  - apply Z.ltb_ge in Hn. destruct vs as [|v vs].
    + rewrite app_nil_r in E. rewrite <- E, with_stack_same. reflexivity.
    + unfold len in Hn. simpl in Hn. lia.
Qed.

(** *** The locals of a frame *)

Lemma locals_with_locals (fr : Frame) (m : gmap string value) :
  locals (with_locals fr m) = m.
Proof.
  unfold locals, with_locals. simpl.
  destruct (locals_is_globals fr); reflexivity.
Qed.

Lemma locals_with_globals (fr : Frame) (m : gmap string value) :
  locals (with_globals fr m) = if locals_is_globals fr then m else locals fr.
Proof.
  unfold locals, with_globals. simpl.
  destruct (locals_is_globals fr); reflexivity.
Qed.

(** ** The call instruction *)

Section CallConvention.
Variable rt : ObjectRuntime.

Lemma split_positional (pos kwvals : list value) (names : list string) :
  length kwvals = length names ->
  slice_to (pos ++ kwvals) (len (pos ++ kwvals) - len names) = pos.
Proof.
  intros E. replace (len names) with (len kwvals) by (unfold len; lia).
  apply slice_to_prefix.
Qed.

Lemma split_keyword (pos kwvals : list value) (names : list string) :
  length kwvals = length names -> names <> [] ->
  slice_from (pos ++ kwvals) (- len names) = kwvals.
Proof.
  intros E Hne. replace (len names) with (len kwvals) by (unfold len; lia).
  apply slice_from_suffix.
  destruct names; [congruence|]. destruct kwvals; [discriminate|].
  unfold len. simpl. lia.
Qed.

(** C1 (amended).  With the [N = |pos| + |kwvals|] argument values on top
    of the stack, above the value [func] and the value [below], [call_op]
    splits the trailing values as keyword arguments under the pending
    names.  When [below] is the null marker, [func] is invoked with exactly
    those arguments.  Otherwise [below] is the callable: it is popped and
    invoked with [func] prepended, as the receiver, to the positional
    arguments.  In both cases the result replaces everything popped. *)
Theorem call_op_convention (fr : Frame) (rest pos kwvals : list value)
    (below func : value) :
  data_stack fr = rest ++ [below; func] ++ pos ++ kwvals ->
  length kwvals = length (kw_names fr) ->
  call_op rt (len pos + len kwvals) fr =
    let kwargs := dict_of (zip_names (kw_names fr) kwvals) in
    if is_none below then
      let* result := call_value rt func pos kwargs in
      Ok (with_stack fr (rest ++ [result]))
    else
      let* result := call_value rt below (func :: pos) kwargs in
      Ok (with_stack fr (rest ++ [result])).
Proof.
  intros Hstack Hkw. unfold call_op.
  rewrite <- len_app.
  rewrite (popn_suffix fr (rest ++ [below; func]) (pos ++ kwvals))
    by (rewrite Hstack, <- app_assoc; reflexivity).
  change (kw_names (with_stack fr (rest ++ [below; func]))) with (kw_names fr).
  assert (Hsplit :
    (match kw_names fr with
     | [] => (pos ++ kwvals, [])
     | _ :: _ =>
         (slice_to (pos ++ kwvals) (len (pos ++ kwvals) - len (kw_names fr)),
          dict_of (zip_names (kw_names fr)
                     (slice_from (pos ++ kwvals) (- len (kw_names fr)))))
     end) = (pos, dict_of (zip_names (kw_names fr) kwvals))).
  { destruct (kw_names fr) as [|n ns] eqn:En.
    - destruct kwvals; [|discriminate]. rewrite app_nil_r. reflexivity.
    - rewrite split_positional, split_keyword by (congruence || assumption).
      reflexivity. }
  rewrite Hsplit. clear Hsplit.
  rewrite (pop_snoc _ (rest ++ [below]) func)
    by (simpl; rewrite <- app_assoc; reflexivity).
  cbn [bind]. rewrite with_stack_twice.
  rewrite (top_snoc _ rest below) by reflexivity.
  cbn [bind].
  rewrite (pop_snoc _ rest below) by reflexivity.
  cbn [bind]. rewrite with_stack_twice.
  destruct (is_none below);
    cbv zeta; destruct (call_value rt _ _ _); reflexivity.
Qed.
End CallConvention.

Lemma call_op_convention_witness :
  call_op host 2 keyword_site =
    Ok (with_stack keyword_site
          [VTuple [VStr "g"; VTuple [VInt 1]; VDict [("k", VInt 2)]]]).
Proof.
  exact (call_op_convention host keyword_site [] [VInt 1] [VInt 2]
           VNone (VObj "g" []) eq_refl eq_refl).
Defined.

Example method_site_call :
  call_op host 1 method_site =
    Ok (with_stack method_site
          [VTuple [VStr "method"; VTuple [VObj "receiver" []; VInt 1];
                   VDict []]]).
Proof. reflexivity. Qed.

(** C1, as stated, fails.  On [method_site] the value popped after the
    argument is the object [receiver] and the value inspected below it is
    the object [method].  As stated, [receiver] would be called with
    [method] prepended to the arguments; [call_op] calls [method] with
    [receiver] prepended. *)
Lemma call_op_receiver_counterexample :
  call_op host 1 method_site <>
    (let* result :=
       call_value host (VObj "receiver" []) [VObj "method" []; VInt 1] [] in
     Ok (with_stack method_site [result])).
Proof. vm_compute. congruence. Qed.

(** ** Pending keyword names *)

Lemma pop_keeps_kw_names (fr fr' : Frame) (v : value) :
  pop fr = Ok (v, fr') -> kw_names fr' = kw_names fr.
Proof.
  unfold pop. destruct (last (data_stack fr)); [|discriminate].
  intros [= _ <-]. reflexivity.
Qed.

Lemma popn_keeps_kw_names (fr : Frame) (n : Z) :
  kw_names (snd (popn fr n)) = kw_names fr.
Proof. unfold popn. destruct (0 <? n); reflexivity. Qed.

(** No path through [call_op] assigns the pending keyword names. *)
Lemma call_op_keeps_kw_names (rt : ObjectRuntime) (argc : Z) (fr fr' : Frame) :
  call_op rt argc fr = Ok fr' -> kw_names fr' = kw_names fr.
Proof.
  unfold call_op. pose proof (popn_keeps_kw_names fr argc) as Hn.
  destruct (popn fr argc) as [all_args fr1]. simpl in Hn.
  destruct (match kw_names fr1 with [] => _ | _ :: _ => _ end) as [args kwargs].
  destruct (pop fr1) as [[func fr2]|] eqn:E2; [|discriminate].
  apply pop_keeps_kw_names in E2. cbn [bind].
  destruct (top fr2) as [below|]; [|discriminate]. cbn [bind].
  destruct (is_none below).
  - destruct (pop fr2) as [[x fr3]|] eqn:E3; [|discriminate].
    apply pop_keeps_kw_names in E3. cbn [bind].
    destruct (call_value rt func args kwargs); [|discriminate].
    cbn [bind]. intros [= <-]. simpl. congruence.
  - destruct (pop fr2) as [[x fr3]|] eqn:E3; [|discriminate].
    apply pop_keeps_kw_names in E3. cbn [bind].
    destruct (call_value rt x _ kwargs); [|discriminate].
    cbn [bind]. intros [= <-]. simpl. congruence.
Qed.

(** C3.  The pending keyword names are still set after the call that used
    them: in [two_calls] the second call, [g(2)], has no [KW_NAMES] of its
    own and yet passes its argument under the name recorded for the first
    call. *)
Theorem kw_names_not_cleared :
  run host 13 two_calls_frame =
    Some (Ok (VTuple [VStr "g"; VTuple []; VDict [("a", VInt 2)]])).
Proof. vm_compute. reflexivity. Qed.

(** ** Argument binding *)

(** A keyword whose name is not among the variable names of the callee goes
    to the variadic-keyword collector when there is one, and is refused
    otherwise. *)
Lemma bind_keyword_unknown_name (names : list string) (pos_only_count : Z)
    (has_varkw : bool) (varkw_name : string) (parsed_args : dict value)
    (key : string) (val : value) :
  name_in key names = false ->
  bind_keyword names pos_only_count has_varkw varkw_name parsed_args key val =
    if has_varkw then collect_keyword varkw_name parsed_args key val
    else Raise (TypeError ERR_TOO_MANY_KW_ARGS).
Proof.
  intros Hn. unfold bind_keyword. rewrite Hn. simpl.
  destruct has_varkw; reflexivity.
Qed.

Lemma collect_keyword_dict (varkw_name : string) (parsed_args : dict value)
    (d : dict value) (key : string) (val : value) :
  dict_get parsed_args varkw_name = Some (VDict d) ->
  collect_keyword varkw_name parsed_args key val =
    Ok (dict_set parsed_args varkw_name (VDict (dict_set d key val))).
Proof. intros E. unfold collect_keyword. rewrite E. reflexivity. Qed.

(** C2.  The test for a declared parameter is made against all the variable
    names of the callee: [f(a=1, x=2)], for [def f(a)] with a local [x],
    binds [x] instead of failing. *)
Theorem local_name_bound_as_keyword :
  arg_binding one_param_one_local (VTuple []) (VDict []) []
              [("a", VInt 1); ("x", VInt 2)]
  = Ok [("a", VInt 1); ("x", VInt 2)].
Proof. reflexivity. Qed.

(** With a collector declared the local is bound all the same, and the
    collector stays empty; a name that is no variable at all is collected. *)
Example local_name_bypasses_collector :
  arg_binding one_param_collector_one_local (VTuple []) (VDict []) []
              [("a", VInt 1); ("x", VInt 2); ("z", VInt 3)]
  = Ok [("kw", VDict [("z", VInt 3)]); ("a", VInt 1); ("x", VInt 2)].
Proof. reflexivity. Qed.

(** C4.  For [def f(a, b=10)]: [f(5)] binds [{a: 5, b: 10}], [f(5, b=20)]
    binds [{a: 5, b: 20}], and [f(a=1, b=2, c=3)] fails with the
    too-many-keyword-arguments error. *)
Theorem scenario_two_bindings :
  binding_of (arg_binding scenario_two (VTuple [VInt 10]) (VDict [])
                          [VInt 5] [])
    = Ok {[ "a" := VInt 5; "b" := VInt 10 ]}
  /\ binding_of (arg_binding scenario_two (VTuple [VInt 10]) (VDict [])
                             [VInt 5] [("b", VInt 20)])
    = Ok {[ "a" := VInt 5; "b" := VInt 20 ]}
  /\ arg_binding scenario_two (VTuple [VInt 10]) (VDict [])
                 [] [("a", VInt 1); ("b", VInt 2); ("c", VInt 3)]
    = Raise (TypeError ERR_TOO_MANY_KW_ARGS).
Proof. repeat split; vm_compute; reflexivity. Qed.

Example scenario_two_order :
  arg_binding scenario_two (VTuple [VInt 10]) (VDict [])
              [VInt 5] [("b", VInt 20)]
  = Ok [("b", VInt 20); ("a", VInt 5)].
Proof. reflexivity. Qed.

(** ** The two tables of binary operators *)

Lemma nb_operator_range (op : Z) (b : binop) :
  nb_operator op = Some b -> 0 <= op <= 12.
Proof.
  intros H. destruct op as [|p|p]; [lia| |discriminate].
  do 4 (try destruct p as [p|p|]); try discriminate H; lia.
Qed.

Lemma BINARIES_rows (rt : ObjectRuntime) (op : Z) (b : binop) :
  nb_operator op = Some b ->
  BINARIES rt op = Some (operator_form rt b) /\
  BINARIES rt (op + 13) = Some (method_form rt b).
Proof.
  intros H. pose proof (nb_operator_range _ _ H) as Hr.
  assert (Hc : op = 0 \/ op = 1 \/ op = 2 \/ op = 3 \/ op = 4 \/ op = 5 \/
               op = 6 \/ op = 7 \/ op = 8 \/ op = 9 \/ op = 10 \/
               op = 11 \/ op = 12) by lia.
  repeat (destruct Hc as [-> | Hc]); try subst op;
    injection H as <-; split; reflexivity.
Qed.

Example int_plus_int_rows :
  binary_op_op host 0 int_plus_int = Ok (with_stack int_plus_int [VInt 3]) /\
  binary_op_op host 13 int_plus_int = Ok (with_stack int_plus_int [VInt 3]).
Proof. split; reflexivity. Qed.

(** C5.  The rows 13-25 do not give [binary_op_op] the result of the rows
    0-12.  On the operands of [2 * "ab"], row 5 pushes ["abab"], which
    the operator finds in the repetition slot of the string after the
    method of the integer has declined, while row 18, the in-place
    multiplication, pushes the [NotImplemented] that [(2).__mul__("ab")]
    answers.  On the operands of [1 + "a"], row 0 raises the type error of
    the operator, while row 13, the in-place addition, pushes
    [NotImplemented]. *)
Theorem inplace_rows_push_not_implemented :
  BINARIES host 5 = Some (operator_form host NbMultiply) /\
  BINARIES host 18 = Some (method_form host NbMultiply) /\
  binary_op_op host 5 int_times_str =
    Ok (with_stack int_times_str [VStr "abab"]) /\
  binary_op_op host 18 int_times_str =
    Ok (with_stack int_times_str [VNotImplemented]) /\
  binary_op_op host 0 int_plus_str =
    Raise (TypeError "unsupported operand type(s) for +: 'int' and 'str'") /\
  binary_op_op host 13 int_plus_str =
    Ok (with_stack int_plus_str [VNotImplemented]).
Proof. repeat split; reflexivity. Qed.

(** ** The dispatch loop and the jump handlers *)


Lemma subscript_lookup {A : Type} (l : list A) (i : Z) (x : A) :
  0 <= i -> l !! Z.to_nat i = Some x -> subscript l i = Ok x.
Proof.
  intros Hi Hl. unfold subscript.
  assert (E : (i <? 0) = false) by (apply Z.ltb_ge; lia).
  cbv zeta. rewrite E, E, Hl. reflexivity.
Qed.







Lemma prepare_new_frame (c : CodeType) (bs gs ls : gmap string value)
    (st : gmap nat (list value)) :
  index (prepare (new_frame c bs gs ls st))
    = build_index 0 (get_instructions c) ∅.
Proof. reflexivity. Qed.


Lemma for_iter_op_next (to : Z) (fr : Frame) (s : list value) (loc : nat)
    (v : value) (rest : list value) :
  data_stack fr = s ++ [VIter loc] ->
  iterators fr !! loc = Some (v :: rest) ->
  for_iter_op to fr =
    Ok (with_stack (with_iterators fr (<[loc := rest]> (iterators fr)))
                   (s ++ [VIter loc; v])).
Proof.
  intros Hs Hi. unfold for_iter_op.
  rewrite (top_snoc fr s (VIter loc)) by assumption. cbn [bind].
  rewrite Hi. unfold push. simpl. rewrite Hs, <- app_assoc. reflexivity.
Qed.

Lemma for_iter_op_exhausted (to i : Z) (fr : Frame) (s : list value)
    (loc : nat) :
  data_stack fr = s ++ [VIter loc] ->
  iterators fr !! loc = Some [] ->
  index fr !! to = Some i ->
  for_iter_op to fr = Ok (with_counter (with_stack fr s) (i - 1)).
Proof.
  intros Hs Hi Hx. unfold for_iter_op.
  rewrite (top_snoc fr s (VIter loc)) by assumption. cbn [bind].
  rewrite Hi, (pop_snoc fr s (VIter loc)) by assumption. cbn [bind].
  unfold jump_forward_op. simpl. rewrite Hx. reflexivity.
Qed.

Lemma round_at (rt : ObjectRuntime) (ins_lst : list instruction)
    (fr : Frame) (ins : instruction) :
  0 <= counter fr ->
  ins_lst !! Z.to_nat (counter fr) = Some ins ->
  round rt ins_lst fr =
    let* fr1 := execute rt (operation ins) fr in
    if is_return (operation ins) then Ok (fr1, true)
    else Ok (with_counter fr1 (counter fr1 + 1), false).
Proof.
  intros H0 Hl. unfold round.
  pose proof (lookup_lt_Some _ _ _ Hl) as Hlt.
  replace (len ins_lst <=? counter fr) with false
    by (symmetry; apply Z.leb_gt; unfold len; lia).
  rewrite (subscript_lookup _ _ _ H0 Hl). reflexivity.
Qed.

Lemma run_loop_next (rt : ObjectRuntime) (n : nat)
    (ins_lst : list instruction) (fr fr' : Frame) :
  round rt ins_lst fr = Ok (fr', false) ->
  run_loop rt (S n) ins_lst fr = run_loop rt n ins_lst fr'.
Proof. intros H. simpl. rewrite H. reflexivity. Qed.

Lemma times_app (p : Z) (l k : list Z) :
  times p (l ++ k) = (times p l + times p k)%nat.
Proof. unfold times. rewrite filter_app, length_app. reflexivity. Qed.

Lemma times_cons_eq (p : Z) (l : list Z) : times p (p :: l) = S (times p l).
Proof. unfold times. rewrite filter_cons_True by reflexivity. reflexivity. Qed.

Lemma times_cons_ne (p q : Z) (l : list Z) :
  q <> p -> times p (q :: l) = times p l.
Proof. intros N. unfold times. rewrite filter_cons_False by exact N. reflexivity. Qed.

Lemma fetched_round (rt : ObjectRuntime) (n : nat)
    (ins_lst : list instruction) (fr fr' : Frame) :
  round rt ins_lst fr = Ok (fr', false) ->
  fetched rt (S n) ins_lst fr = counter fr :: fetched rt n ins_lst fr'.
Proof.
  intros H. simpl. destruct (len ins_lst <=? counter fr) eqn:E.
  - unfold round in H. rewrite E in H. discriminate H.
  - rewrite H. reflexivity.
Qed.

Lemma rounds_app (rt : ObjectRuntime) (ins_lst : list instruction) (k1 : nat) :
  forall (fr fr1 : Frame) (k2 : nat) (fr2 : Frame),
    rounds rt k1 ins_lst fr = Some fr1 ->
    rounds rt k2 ins_lst fr1 = Some fr2 ->
    rounds rt (k1 + k2) ins_lst fr = Some fr2 /\
    fetched rt (k1 + k2) ins_lst fr
      = fetched rt k1 ins_lst fr ++ fetched rt k2 ins_lst fr1.
Proof.
  induction k1 as [|k1 IH]; intros fr fr1 k2 fr2 H1 H2.
  - injection H1 as ->. split; [exact H2|reflexivity].
  - cbn [rounds] in H1.
    destruct (round rt ins_lst fr) as [[fr' [|]]|] eqn:R; try discriminate H1.
    destruct (IH _ _ _ _ H1 H2) as [Hr Hf].
    change (S k1 + k2)%nat with (S (k1 + k2)). split.
    + cbn [rounds]. rewrite R. exact Hr.
    + rewrite !(fetched_round rt _ _ _ _ R), Hf. reflexivity.
Qed.

(** Rounds that do not leave the loop are rounds of [run_loop]. *)
Lemma rounds_run_loop (rt : ObjectRuntime) (ins_lst : list instruction)
    (k : nat) :
  forall (fr fr' : Frame) (n : nat),
    rounds rt k ins_lst fr = Some fr' ->
    run_loop rt (k + n) ins_lst fr = run_loop rt n ins_lst fr'.
Proof.
  induction k as [|k IH]; intros fr fr' n H.
  - injection H as ->. reflexivity.
  - cbn [rounds] in H.
    destruct (round rt ins_lst fr) as [[fr1 [|]]|] eqn:R; try discriminate H.
    change (S k + n)%nat with (S (k + n)).
    rewrite (run_loop_next rt _ _ _ _ R). apply IH. exact H.
Qed.

Lemma build_index_other (ins_lst : list instruction) :
  forall (k : Z) (ix : gmap Z Z) (o : Z),
    o ∉ map offset ins_lst ->
    build_index k ins_lst ix !! o = ix !! o.
Proof.
  induction ins_lst as [|a rest IH]; intros k ix o Hn; [reflexivity|].
  cbn [build_index]. cbn [map] in Hn.
  apply not_elem_of_cons in Hn as [Hne Hn].
  rewrite IH by exact Hn. apply lookup_insert_ne. congruence.
Qed.








(** ** Iteration *)

Section ForIterLoop.
Variable rt : ObjectRuntime.
Variable ins_lst : list instruction.
Variable ix : gmap Z Z.
Variables head head_offset exit_pos to : Z.
Variable s : list value.
Variable loc : nat.
Variable inv : list value -> Frame -> Prop.

Hypothesis head_nonneg : 0 <= head.
Hypothesis head_is_for_iter :
  ins_lst !! Z.to_nat head = Some (Instruction head_offset (FOR_ITER to)).
Hypothesis exit_entry : ix !! to = Some exit_pos.

Lemma head_round_item (fr : Frame) (v : value) (rest : list value) :
  at_loop_head ix head s loc fr (v :: rest) ->
  round rt ins_lst fr = Ok (enter_body head s loc fr v rest, false).
Proof.
  intros (Hix & Hc & Hs & Hi).
  rewrite (round_at rt ins_lst fr (Instruction head_offset (FOR_ITER to)))
    by (rewrite Hc; assumption).
  cbn [operation execute is_return].
  rewrite (for_iter_op_next to fr s loc v rest Hs Hi). cbn [bind].
  cbn [counter with_stack with_iterators]. rewrite Hc. reflexivity.
Qed.

Lemma head_round_exhausted (fr : Frame) :
  at_loop_head ix head s loc fr [] ->
  round rt ins_lst fr = Ok (with_counter (with_stack fr s) exit_pos, false).
Proof.
  intros (Hix & Hc & Hs & Hi).
  rewrite (round_at rt ins_lst fr (Instruction head_offset (FOR_ITER to)))
    by (rewrite Hc; assumption).
  cbn [operation execute is_return].
  rewrite (for_iter_op_exhausted to exit_pos fr s loc Hs Hi)
    by (rewrite Hix; exact exit_entry).
  cbn [bind]. cbn [counter with_counter].
  replace (exit_pos - 1 + 1) with exit_pos by lia. reflexivity.
Qed.

Hypothesis body : body_returns rt ins_lst ix head s loc inv.

Lemma loop_turns (xs : list value) :
  forall (fr : Frame) (done : list value),
    at_loop_head ix head s loc fr xs ->
    inv done fr ->
    exists (k : nat) (fr' last_head : Frame),
      rounds rt k ins_lst fr = Some fr' /\
      inv (done ++ xs) last_head /\
      iterators last_head !! loc = Some [] /\
      fr' = with_counter (with_stack last_head s) exit_pos /\
      times (head + 1) (fetched rt k ins_lst fr) = length xs /\
      times head (fetched rt k ins_lst fr) = S (length xs) /\
      last (fetched rt k ins_lst fr) = Some head.
Proof.
  induction xs as [|v rest IH]; intros fr done Hh Hinv.
  - pose proof (head_round_exhausted fr Hh) as R.
    exists 1%nat, (with_counter (with_stack fr s) exit_pos), fr.
    destruct Hh as (_ & Hhead & _ & Hi).
    rewrite (fetched_round rt _ _ _ _ R). cbn [rounds fetched].
    rewrite R, Hhead, app_nil_r. repeat split; try assumption.
    + apply times_cons_ne. lia.
    + apply times_cons_eq.
  - pose proof (head_round_item fr v rest Hh) as R.
    destruct (body fr done v rest Hh Hinv)
      as (kb & fr2 & Rb & Hh2 & Hinv2 & Tb0 & Tb1).
    destruct (IH fr2 (done ++ [v]) Hh2 Hinv2)
      as (k & fr' & lh & Rk & Hl & Hi & Hf & T1 & T0 & Hlast).
    destruct (rounds_app rt ins_lst kb _ fr2 k fr' Rb Rk) as [Rbk Fbk].
    exists (S (kb + k)), fr', lh. destruct Hh as (_ & Hhead & _).
    rewrite (fetched_round rt _ _ _ _ R), Fbk, Hhead.
    rewrite <- app_assoc in Hl.
    repeat split; try assumption.
    + cbn [rounds]. rewrite R. exact Rbk.
    + rewrite times_cons_ne, times_app, Tb1, T1 by lia. reflexivity.
    + rewrite times_cons_eq, times_app, Tb0, T0. reflexivity.
    + destruct (fetched rt k ins_lst fr2) as [|q l] eqn:E;
        [discriminate Hlast|].
      rewrite app_comm_cons, last_app, Hlast. reflexivity.
Qed.
End ForIterLoop.

Lemma loop_index_head : loop_index !! 0 = Some 0.
Proof. reflexivity. Qed.

Lemma loop_index_exit : loop_index !! 6 = Some 3.
Proof. reflexivity. Qed.

(** The body of [loop_code] stores the item and jumps back to the head; it
    needs no invariant. *)
Lemma loop_code_body (rt : ObjectRuntime) (s : list value) (loc : nat) :
  body_returns rt loop_code loop_index 0 s loc (fun _ _ => True).
Proof.
  intros fr0 done v rest (Hix & Hc & Hs & Hi) _.
  set (fr := enter_body 0 s loc fr0 v rest).
  pose (fr2 := with_counter
                 (with_locals (with_stack fr (s ++ [VIter loc]))
                              (<["x" := v]> (locals fr))) 2).
  pose (fr3 := with_counter fr2 0).
  assert (R1 : round rt loop_code fr = Ok (fr2, false)).
  { rewrite (round_at rt loop_code fr (Instruction 2 (STORE_FAST "x")))
      by (reflexivity || (cbn; lia)).
    cbn [operation execute is_return]. unfold store_fast_op.
    rewrite (pop_snoc fr (s ++ [VIter loc]) v)
      by (cbn; rewrite <- app_assoc; reflexivity).
    reflexivity. }
  assert (R2 : round rt loop_code fr2 = Ok (fr3, false)).
  { rewrite (round_at rt loop_code fr2 (Instruction 4 (JUMP_BACKWARD 0)))
      by (reflexivity || (cbn; lia)).
    cbn [operation execute is_return]. unfold jump_backward_op.
    change (index fr2) with (index fr0). rewrite Hix, loop_index_head.
    cbn [bind]. reflexivity. }
  exists 2%nat, fr3. split; [|split; [|split; [|split]]].
  - cbn [rounds]. rewrite R1, R2. reflexivity.
  - repeat split; [exact Hix|]. cbn. apply lookup_insert_eq.
  - exact I.
  - rewrite (fetched_round rt _ _ _ _ R1), (fetched_round rt _ _ _ _ R2).
    reflexivity.
  - rewrite (fetched_round rt _ _ _ _ R1), (fetched_round rt _ _ _ _ R2).
    reflexivity.
Qed.

Lemma sum_of_app (done : list value) (z : Z) :
  sum_of (done ++ [VInt z]) = sum_of done + z.
Proof.
  unfold sum_of. induction done as [|v done IH]; cbn [app foldr]; [lia|].
  rewrite IH. destruct v; lia.
Qed.

Lemma sum_index_head : sum_index !! 14 = Some 7.
Proof. reflexivity. Qed.

Lemma sum_loop_body (s : list value) (loc : nat) :
  body_returns host sum_loop sum_index 7 s loc (sum_inv loc).
Proof.
  intros fr0 done v rest (Hix & Hc & Hs & Hi) (Ht & Hints).
  pose proof (Hints _ Hi) as Hall. apply Forall_cons in Hall as [Hv Hrest].
  destruct v as [ | | |z| | | | | | | | | | ]; try contradiction. clear Hv.
  set (n := sum_of done) in *.
  set (fr := enter_body 7 s loc fr0 (VInt z) rest).
  set (l1 := <["x" := VInt z]> (locals fr0)).
  pose (fr1 := with_counter
                 (with_locals (with_stack fr (s ++ [VIter loc])) l1) 9).
  pose (fr2 := with_counter (with_stack fr1 (s ++ [VIter loc; VInt n])) 10).
  pose (fr3 := with_counter
                 (with_stack fr2 (s ++ [VIter loc; VInt n; VInt z])) 11).
  pose (fr4 := with_counter
                 (with_stack fr3 (s ++ [VIter loc; VInt (n + z)])) 12).
  pose (fr5 := with_counter
                 (with_locals (with_stack fr4 (s ++ [VIter loc]))
                              (<["total" := VInt (n + z)]> l1)) 13).
  pose (fr6 := with_counter fr5 7).
  assert (L1 : locals fr1 = l1)
    by exact (locals_with_locals (with_stack fr (s ++ [VIter loc])) l1).
  assert (L5 : locals fr5 = <["total" := VInt (n + z)]> l1)
    by exact (locals_with_locals (with_stack fr4 (s ++ [VIter loc])) _).
  assert (R1 : round host sum_loop fr = Ok (fr1, false)).
  { rewrite (round_at host sum_loop fr (Instruction 16 (STORE_NAME "x")))
      by (reflexivity || (cbn; lia)).
    cbn [operation execute is_return]. unfold store_name_op.
    rewrite (pop_snoc fr (s ++ [VIter loc]) (VInt z))
      by (cbn; rewrite <- app_assoc; reflexivity).
    reflexivity. }
  assert (R2 : round host sum_loop fr1 = Ok (fr2, false)).
  { rewrite (round_at host sum_loop fr1 (Instruction 18 (LOAD_NAME "total")))
      by (reflexivity || (cbn; lia)).
    cbn [operation execute is_return]. unfold load_name_op.
    rewrite L1. unfold l1. rewrite lookup_insert_ne by discriminate.
    rewrite Ht. cbn [bind]. unfold push.
    change (data_stack fr1) with (s ++ [VIter loc]).
    rewrite <- app_assoc. reflexivity. }
  assert (R3 : round host sum_loop fr2 = Ok (fr3, false)).
  { rewrite (round_at host sum_loop fr2 (Instruction 20 (LOAD_NAME "x")))
      by (reflexivity || (cbn; lia)).
    cbn [operation execute is_return]. unfold load_name_op.
    change (locals fr2) with (locals fr1).
    rewrite L1. unfold l1. rewrite lookup_insert_eq.
    cbn [bind]. unfold push.
    change (data_stack fr2) with (s ++ [VIter loc; VInt n]).
    rewrite <- app_assoc. reflexivity. }
  assert (R4 : round host sum_loop fr3 = Ok (fr4, false)).
  { rewrite (round_at host sum_loop fr3 (Instruction 22 (BINARY_OP 13)))
      by (reflexivity || (cbn; lia)).
    cbn [operation execute is_return]. unfold binary_op_op.
    rewrite (pop_snoc fr3 (s ++ [VIter loc; VInt n]) (VInt z))
      by (cbn; rewrite <- app_assoc; reflexivity).
    cbn [bind].
    rewrite (pop_snoc _ (s ++ [VIter loc]) (VInt n))
      by (cbn; rewrite <- app_assoc; reflexivity).
    cbn [bind]. cbn. unfold push. cbn [data_stack with_stack].
    rewrite <- app_assoc. reflexivity. }
  assert (R5 : round host sum_loop fr4 = Ok (fr5, false)).
  { rewrite (round_at host sum_loop fr4 (Instruction 24 (STORE_NAME "total")))
      by (reflexivity || (cbn; lia)).
    cbn [operation execute is_return]. unfold store_name_op.
    rewrite (pop_snoc fr4 (s ++ [VIter loc]) (VInt (n + z)))
      by (cbn; rewrite <- app_assoc; reflexivity).
    cbn [bind].
    change (locals (with_stack fr4 (s ++ [VIter loc]))) with (locals fr1).
    rewrite L1. reflexivity. }
  assert (R6 : round host sum_loop fr5 = Ok (fr6, false)).
  { rewrite (round_at host sum_loop fr5 (Instruction 26 (JUMP_BACKWARD 14)))
      by (reflexivity || (cbn; lia)).
    cbn [operation execute is_return]. unfold jump_backward_op.
    change (index fr5) with (index fr0). rewrite Hix, sum_index_head.
    cbn [bind]. reflexivity. }
  exists 6%nat, fr6. split; [|split; [|split; [|split]]].
  - cbn [rounds]. rewrite R1, R2, R3, R4, R5, R6. reflexivity.
  - repeat split; [exact Hix|].
    change (iterators fr6) with (<[loc := rest]> (iterators fr0)).
    apply lookup_insert_eq.
  - split.
    + change (locals fr6) with (locals fr5). rewrite L5.
      rewrite lookup_insert_eq, sum_of_app. reflexivity.
    + intros items. change (iterators fr6) with (<[loc := rest]> (iterators fr0)).
      rewrite lookup_insert_eq. intros [= <-]. exact Hrest.
  - rewrite (fetched_round host _ _ _ _ R1), (fetched_round host _ _ _ _ R2),
      (fetched_round host _ _ _ _ R3), (fetched_round host _ _ _ _ R4),
      (fetched_round host _ _ _ _ R5), (fetched_round host _ _ _ _ R6).
    reflexivity.
  - rewrite (fetched_round host _ _ _ _ R1), (fetched_round host _ _ _ _ R2),
      (fetched_round host _ _ _ _ R3), (fetched_round host _ _ _ _ R4),
      (fetched_round host _ _ _ _ R5), (fetched_round host _ _ _ _ R6).
    reflexivity.
Qed.

(** C7.  With an iterator on top of the stack, [for_iter_op] leaves the
    iterator in place, advances it and pushes the item produced as long as
    an item remains, and pops the iterator and redirects the pointer to the
    exit offset once none remains.  Hence a loop headed by [FOR_ITER], run
    from its head over an iterator with [K] items left, when its body
    consumes the item and comes back to the head from every frame that
    satisfies a loop invariant and re-establishes the invariant: the loop
    enters the body exactly [K] times, fetches [FOR_ITER] exactly [K + 1]
    times, the last fetch being the one that takes the exit, and arrives at
    the exit position with the iterator exhausted and popped, in the frame
    the last visit of the head left, where the invariant holds of all the
    items. *)
Theorem for_iter_drives_loop (rt : ObjectRuntime) :
  (forall (to : Z) (fr : Frame) (s : list value) (loc : nat)
          (v : value) (rest : list value),
      data_stack fr = s ++ [VIter loc] ->
      iterators fr !! loc = Some (v :: rest) ->
      for_iter_op to fr =
        Ok (with_stack (with_iterators fr (<[loc := rest]> (iterators fr)))
                       (s ++ [VIter loc; v])))
  /\ (forall (to i : Z) (fr : Frame) (s : list value) (loc : nat),
         data_stack fr = s ++ [VIter loc] ->
         iterators fr !! loc = Some [] ->
         index fr !! to = Some i ->
         for_iter_op to fr = Ok (with_counter (with_stack fr s) (i - 1)))
  /\ (forall (ins_lst : list instruction) (ix : gmap Z Z)
             (head head_offset exit_pos to : Z) (s : list value) (loc : nat)
             (inv : list value -> Frame -> Prop)
             (xs done : list value) (fr : Frame),
         0 <= head ->
         ins_lst !! Z.to_nat head
           = Some (Instruction head_offset (FOR_ITER to)) ->
         ix !! to = Some exit_pos ->
         body_returns rt ins_lst ix head s loc inv ->
         at_loop_head ix head s loc fr xs ->
         inv done fr ->
         exists (k : nat) (fr' last_head : Frame),
           rounds rt k ins_lst fr = Some fr'
           /\ (forall n : nat,
                 run_loop rt (k + n) ins_lst fr = run_loop rt n ins_lst fr')
           /\ inv (done ++ xs) last_head
           /\ fr' = with_counter (with_stack last_head s) exit_pos
           /\ counter fr' = exit_pos
           /\ data_stack fr' = s
           /\ iterators fr' !! loc = Some []
           /\ times (head + 1) (fetched rt k ins_lst fr) = length xs
           /\ times head (fetched rt k ins_lst fr) = S (length xs)
           /\ last (fetched rt k ins_lst fr) = Some head).
Proof.
  split; [|split].
  - intros. eapply for_iter_op_next; eassumption.
  - intros. eapply for_iter_op_exhausted; eassumption.
  - intros ins_lst ix head head_offset exit_pos to s loc inv xs done fr
           H0 Hhead Hexit Hbody Hh Hinv.
    destruct (loop_turns rt ins_lst ix head head_offset exit_pos to s loc inv
                H0 Hhead Hexit Hbody xs fr done Hh Hinv)
      as (k & fr' & lh & Hr & Hl & Hi & Hf & Hrest).
    exists k, fr', lh. split; [exact Hr|].
    split; [intros n; apply rounds_run_loop; exact Hr|].
    split; [exact Hl|]. split; [exact Hf|].
    rewrite Hf at 1 2 3. repeat split; try apply Hrest. exact Hi.
Qed.

Lemma for_iter_drives_loop_witness :
  exists (k : nat) (fr' : Frame),
    rounds host k sum_loop sum_head = Some fr'
    /\ counter fr' = 14
    /\ data_stack fr' = []
    /\ locals fr' !! "total" = Some (VInt 6)
    /\ times 8 (fetched host k sum_loop sum_head) = 3%nat
    /\ times 7 (fetched host k sum_loop sum_head) = 4%nat.
Proof.
  destruct (for_iter_drives_loop host) as (_ & _ & H).
  destruct (H sum_loop sum_index 7 14 14 28 [] 0%nat (sum_inv 0)
              [VInt 1; VInt 2; VInt 3] [] sum_head)
    as (k & fr' & lh & Hr & _ & [Hl _] & Hf & Hc & Hs & _ & T1 & T0 & _).
  - lia.
  - reflexivity.
  - reflexivity.
  - apply sum_loop_body.
  - repeat split.
  - split; [reflexivity|].
    intros items Hi. vm_compute in Hi. injection Hi as <-.
    repeat constructor.
  - exists k, fr'. repeat split; try assumption.
    rewrite Hf. exact Hl.
Defined.

(** The virtual machine reaches [sum_head] after seven rounds on
    [sum_code], and returns the sum. *)
Example sum_loop_run :
  rounds host 7 sum_loop (prepare (new_frame_shared sum_code ∅ ∅ ∅))
    = Some sum_head
  /\ VirtualMachine_run host 40 ∅ sum_code = Some (Ok (VInt 6)).
Proof. split; vm_compute; reflexivity. Qed.

(** The loop of [loop_code] run to its end over three items. *)
Example three_items_trace :
  fetched host 12 loop_code three_items
    = [0; 1; 2; 0; 1; 2; 0; 1; 2; 0; 3; 4]
  /\ run host 12 three_items = Some (Ok VNone).
Proof. split; vm_compute; reflexivity. Qed.

(** ** Containers *)

Lemma popn_top (fr : Frame) (s vs : list value) :
  popn (with_stack fr (s ++ vs)) (len vs) = (vs, with_stack fr s).
Proof.
  rewrite (popn_suffix (with_stack fr (s ++ vs)) s vs) by reflexivity.
  reflexivity.
Qed.

(** C8.  [build_tuple_op] pops the top [N] values and pushes them, deepest
    first, as one value; that value is the list returned by [popn], not a
    tuple: the handler does exactly what [build_list_op] does. *)
Theorem build_tuple_pushes_list (fr : Frame) (s vs : list value) :
  build_tuple_op (len vs) (with_stack fr (s ++ vs))
    = Ok (with_stack fr (s ++ [VList vs]))
  /\ build_list_op (len vs) (with_stack fr (s ++ vs))
    = Ok (with_stack fr (s ++ [VList vs])).
Proof.
  unfold build_tuple_op, build_list_op.
  rewrite popn_top. split; reflexivity.
Qed.

(** [build_set_op] pushes the set of the popped values, which must all be
    hashable. *)
Lemma build_set_op_hashable (fr : Frame) (s vs : list value) :
  forallb hashable vs = true ->
  build_set_op (len vs) (with_stack fr (s ++ vs))
    = Ok (with_stack fr (s ++ [VSet vs])).
Proof.
  intros H. unfold build_set_op. rewrite popn_top, H. reflexivity.
Qed.

Example build_tuple_of_two :
  build_tuple_op 2 (with_stack empty_frame [VInt 1; VInt 2])
  = Ok (with_stack empty_frame [VList [VInt 1; VInt 2]]).
Proof. reflexivity. Qed.

(** ** Formatting *)

Lemma spec_flag_test_fails (flags : Z) : (Z.land flags 4 =? 1) = false.
Proof.
  apply Z.eqb_neq. intros E.
  assert (H : Z.testbit (Z.land flags 4) 0 = Z.testbit 1 0) by (rewrite E; reflexivity).
  rewrite Z.land_spec in H. change (Z.testbit 4 0) with false in H.
  rewrite andb_false_r in H. discriminate H.
Qed.

(** The branch that applies a format specification is never taken. *)
Lemma format_value_op_branch (rt : ObjectRuntime) (flags : Z) (fr : Frame) :
  format_value_op rt flags fr =
    let* (obj, fr) := pop fr in
    if Z.land flags 3 =? 1 then
      let* s := str_of rt obj in Ok (push fr [s])
    else if Z.land flags 3 =? 2 then
      let* s := repr_of rt obj in Ok (push fr [s])
    else if Z.land flags 3 =? 3 then
      let* s := ascii_of rt obj in Ok (push fr [s])
    else Ok fr.
Proof. unfold format_value_op. rewrite spec_flag_test_fails. reflexivity. Qed.

(** C9.  With the has-format-spec flag set and no conversion requested
    (operand 4), [format_value_op] pops the value on top, which is the
    format specification, calls nothing and pushes nothing: the object stays
    on the stack unformatted. *)
Theorem format_value_ignores_spec (rt : ObjectRuntime) (fr : Frame)
    (s : list value) (obj spec : value) :
  format_value_op rt 4 (with_stack fr (s ++ [obj; spec]))
  = Ok (with_stack fr (s ++ [obj])).
Proof.
  rewrite format_value_op_branch.
  rewrite (pop_snoc _ (s ++ [obj]) spec)
    by (simpl; rewrite <- app_assoc; reflexivity).
  reflexivity.
Qed.

(** Without any flag the popped object is not replaced by anything. *)
Example format_value_plain (rt : ObjectRuntime) (fr : Frame)
    (s : list value) (obj : value) :
  format_value_op rt 0 (with_stack fr (s ++ [obj])) = Ok (with_stack fr s).
Proof.
  rewrite format_value_op_branch.
  rewrite (pop_snoc _ s obj) by reflexivity. reflexivity.
Qed.

(** ** Attribute probing *)

(** [load_attr_op] succeeds exactly when the call of [__getattribute__] on
    the object on top of the stack returns, and then the frame, its stack
    included, is what it was before the instruction; when the call fails,
    its exception is the outcome. *)
Lemma load_attr_probe (rt : ObjectRuntime) (namei : string)
    (fr : Frame) (s : list value) (obj : value) :
  data_stack fr = s ++ [obj] ->
  load_attr_op rt namei fr =
    match getattribute rt obj namei with
    | Ok _ => Ok fr
    | Raise e => Raise e
    end.
Proof.
  intros Hs. unfold load_attr_op.
  rewrite (pop_snoc fr s obj Hs). cbn [bind].
  destruct (getattribute rt obj namei); cbn [bind]; [|reflexivity].
  change (push (with_stack fr s) [obj]) with (with_stack fr (s ++ [obj])).
  rewrite <- Hs, with_stack_same. reflexivity.
Qed.

Example load_attr_present :
  load_attr_op host "x" attr_site = Ok attr_site.
Proof.
  exact (load_attr_probe host "x" attr_site [VInt 7]
           (VObj "point" [("x", VInt 1)]) eq_refl).
Qed.

Example load_attr_absent :
  load_attr_op host "y" attr_site = Raise AttributeError.
Proof. reflexivity. Qed.

(** C10.  [load_attr_op] fails on an object that possesses the attribute:
    for the class object of [class C: x = 1], [getattr] finds [x], and
    [load_method_op] pushes it, but the call [C.__getattribute__("x")]
    by which [load_attr_op] probes the attribute raises [TypeError]. *)
Theorem load_attr_fails_on_class :
  getattr host (VClass "C" [("x", VInt 1)]) "x" = Ok (VInt 1) /\
  load_method_op host "x" class_attr_site
    = Ok (with_stack class_attr_site [VInt 7; VNone; VInt 1]) /\
  load_attr_op host "x" class_attr_site
    = Raise (TypeError "expected 1 argument, got 0").
Proof. repeat split; reflexivity. Qed.

(** * Further properties *)

(** ** The stack primitives *)

(** X1.  [popn] never fails.  What it returns and what it leaves make up
    the stack it found, in order; it returns [n] values when the stack holds
    that many, the whole stack when it holds fewer, and nothing when [n] is
    zero or negative. *)
Theorem popn_splits (fr : Frame) (n : Z) :
  data_stack (snd (popn fr n)) ++ fst (popn fr n) = data_stack fr /\
  len (fst (popn fr n)) = Z.max 0 (Z.min n (len (data_stack fr))).
Proof.
  unfold popn. destruct (0 <? n) eqn:Hn.
  - apply Z.ltb_lt in Hn. cbn [fst snd data_stack with_stack].
    unfold slice_to, slice_from. split.
    + apply take_drop.
    + unfold len at 1. rewrite length_drop. unfold slice_bound.
      replace (- n <? 0) with true by (symmetry; apply Z.ltb_lt; lia).
      unfold len. lia.
  - apply Z.ltb_ge in Hn. cbn [fst snd]. split.
    + apply app_nil_r.
    + pose proof (len_nonneg (data_stack fr)). change (len (@nil value)) with 0.
      lia.
Qed.

(** X2.  Values pushed together are popped together: [popn] of as many
    values as were pushed returns them in the order of the push and restores
    the frame, and so does [pop] for a single value. *)
Theorem push_then_pop (fr : Frame) (vs : list value) (v : value) :
  popn (push fr vs) (len vs) = (vs, fr) /\
  pop (push fr [v]) = Ok (v, fr) /\
  top (push fr [v]) = Ok v.
Proof.
  split; [|split].
  - rewrite (popn_suffix (push fr vs) (data_stack fr) vs) by reflexivity.
    change (with_stack (push fr vs) (data_stack fr))
      with (with_stack fr (data_stack fr)).
    rewrite with_stack_same. reflexivity.
  - rewrite (pop_snoc (push fr [v]) (data_stack fr) v) by reflexivity.
    change (with_stack (push fr [v]) (data_stack fr))
      with (with_stack fr (data_stack fr)).
    rewrite with_stack_same. reflexivity.
  - apply (top_snoc (push fr [v]) (data_stack fr) v). reflexivity.
Qed.

(** ** Name resolution *)

(** X3.  A value stored under a name is the value loaded under that name:
    [store_name_op] followed by [load_name_op] puts the value back on the
    stack, whatever the globals and the builtins hold; the same holds of
    [store_fast_op] and [load_fast_op]. *)
Theorem store_then_load_name (fr : Frame) (s : list value) (v : value)
    (namei : string) :
  data_stack fr = s ++ [v] ->
  let fr1 := with_locals (with_stack fr s) (<[namei := v]> (locals fr)) in
  store_name_op namei fr = Ok fr1 /\
  load_name_op namei fr1 = Ok (with_stack fr1 (s ++ [v])) /\
  store_fast_op namei fr = Ok fr1 /\
  load_fast_op namei fr1 = Ok (with_stack fr1 (s ++ [v])).
Proof.
  intros Hs fr1.
  assert (Hstore : store_name_op namei fr = Ok fr1).
  { unfold store_name_op. rewrite (pop_snoc fr s v Hs). reflexivity. }
  assert (Hload : load_name_op namei fr1 = Ok (with_stack fr1 (s ++ [v]))).
  { unfold load_name_op. subst fr1.
    rewrite locals_with_locals, lookup_insert_eq. reflexivity. }
  repeat split; assumption.
Qed.

Lemma store_then_load_name_witness :
  let fr := with_stack empty_frame [VInt 1; VInt 2] in
  let fr1 := with_locals (with_stack fr [VInt 1]) (<["x" := VInt 2]> (locals fr)) in
  store_name_op "x" fr = Ok fr1 /\
  load_name_op "x" fr1 = Ok (with_stack fr1 [VInt 1; VInt 2]) /\
  store_fast_op "x" fr = Ok fr1 /\
  load_fast_op "x" fr1 = Ok (with_stack fr1 [VInt 1; VInt 2]).
Proof.
  exact (store_then_load_name (with_stack empty_frame [VInt 1; VInt 2])
           [VInt 1] (VInt 2) "x" eq_refl).
Defined.

(** X4.  A stored global is what [load_global_op] pushes.  [load_name_op]
    pushes it too in a frame whose locals are its globals, as the first
    frame of the virtual machine; in a frame that owns its locals it pushes
    the local of that name when there is one, and the stored global
    otherwise. *)
Theorem store_global_then_load (fr : Frame) (s : list value) (v : value)
    (namei : string) :
  data_stack fr = s ++ [v] ->
  let fr1 := with_globals (with_stack fr s) (<[namei := v]> (globals fr)) in
  store_global_op namei fr = Ok fr1 /\
  load_global_op 0 namei fr1 = Ok (with_stack fr1 (s ++ [v])) /\
  load_name_op namei fr1 =
    Ok (with_stack fr1
          (s ++ [if locals_is_globals fr then v
                 else default v (own_locals fr !! namei)])).
Proof.
  intros Hs fr1. split; [|split].
  - unfold store_global_op. rewrite (pop_snoc fr s v Hs). reflexivity.
  - unfold load_global_op. change (Z.land 0 1 =? 1) with false. cbn [bind].
    change (globals fr1) with (<[namei := v]> (globals fr)).
    rewrite lookup_insert_eq. reflexivity.
  - unfold load_name_op. subst fr1. rewrite locals_with_globals.
    change (locals_is_globals (with_stack fr s)) with (locals_is_globals fr).
    unfold locals. change (own_locals (with_stack fr s)) with (own_locals fr).
    change (locals_is_globals (with_stack fr s)) with (locals_is_globals fr).
    destruct (locals_is_globals fr).
    + rewrite lookup_insert_eq. reflexivity.
    + destruct (own_locals fr !! namei) as [w|]; [reflexivity|].
      change (globals (with_globals (with_stack fr s)
                         (<[namei := v]> (globals fr))))
        with (<[namei := v]> (globals fr)).
      rewrite lookup_insert_eq. reflexivity.
Qed.

Lemma store_global_then_load_witness :
  (let fr := with_stack (new_frame_shared no_code ∅ {[ "x" := VInt 1 ]} ∅)
                        [VInt 2] in
   let fr1 := with_globals (with_stack fr []) (<["x" := VInt 2]> (globals fr)) in
   store_global_op "x" fr = Ok fr1 /\
   load_global_op 0 "x" fr1 = Ok (with_stack fr1 [VInt 2]) /\
   load_name_op "x" fr1 = Ok (with_stack fr1 [VInt 2])) /\
  (let fr := with_stack (new_frame no_code ∅ ∅ {[ "x" := VInt 1 ]} ∅)
                        [VInt 2] in
   let fr1 := with_globals (with_stack fr []) (<["x" := VInt 2]> (globals fr)) in
   store_global_op "x" fr = Ok fr1 /\
   load_global_op 0 "x" fr1 = Ok (with_stack fr1 [VInt 2]) /\
   load_name_op "x" fr1 = Ok (with_stack fr1 [VInt 1])).
Proof.
  split.
  - exact (store_global_then_load
             (with_stack (new_frame_shared no_code ∅ {[ "x" := VInt 1 ]} ∅)
                         [VInt 2])
             [] (VInt 2) "x" eq_refl).
  - exact (store_global_then_load
             (with_stack (new_frame no_code ∅ ∅ {[ "x" := VInt 1 ]} ∅)
                         [VInt 2])
             [] (VInt 2) "x" eq_refl).
Defined.

(** X5.  A name bound in none of the scopes consulted is an error:
    [load_name_op] fails with [NameError] when locals, globals and builtins
    all lack it, and [load_global_op] fails with [NameError] when globals
    and builtins lack it, even if the name is a local. *)
Theorem unresolved_name (fr : Frame) (namei : Z) (name : string) :
  globals fr !! name = None ->
  builtins fr !! name = None ->
  load_global_op namei name fr = Raise NameError /\
  (locals fr !! name = None -> load_name_op name fr = Raise NameError).
Proof.
  intros Hg Hb. split.
  - unfold load_global_op, push_null_op.
    destruct (Z.land namei 1 =? 1); cbn [bind];
      cbn [globals builtins push with_stack]; rewrite Hg, Hb; reflexivity.
  - intros Hl. unfold load_name_op. rewrite Hl, Hg, Hb. reflexivity.
Qed.

Lemma unresolved_name_witness :
  let fr := with_locals empty_frame {[ "x" := VInt 1 ]} in
  load_global_op 1 "x" fr = Raise NameError /\
  (locals fr !! "y" = None -> load_name_op "y" fr = Raise NameError) /\
  load_name_op "y" fr = Raise NameError.
Proof.
  intros fr.
  destruct (unresolved_name fr 1 "x" eq_refl eq_refl) as [H1 _].
  destruct (unresolved_name fr 1 "y" eq_refl eq_refl) as [_ H2].
  split; [exact H1|]. split; [exact H2|]. apply H2. reflexivity.
Defined.

(** ** Call sites *)

Lemma call_op_direct (rt : ObjectRuntime) (fr : Frame)
    (rest pos : list value) (func : value) :
  data_stack fr = rest ++ [VNone; func] ++ pos ->
  kw_names fr = [] ->
  call_op rt (len pos) fr =
    let* result := call_value rt func pos [] in
    Ok (with_stack fr (rest ++ [result])).
Proof.
  intros Hs Hk. unfold call_op.
  rewrite (popn_suffix fr (rest ++ [VNone; func]) pos)
    by (rewrite Hs, <- app_assoc; reflexivity).
  change (kw_names (with_stack fr (rest ++ [VNone; func]))) with (kw_names fr).
  rewrite Hk.
  rewrite (pop_snoc _ (rest ++ [VNone]) func)
    by (simpl; rewrite <- app_assoc; reflexivity).
  cbn [bind]. rewrite with_stack_twice.
  rewrite (top_snoc _ rest VNone) by reflexivity. cbn [bind is_none].
  rewrite (pop_snoc _ rest VNone) by reflexivity. cbn [bind].
  rewrite with_stack_twice.
  destruct (call_value rt func pos []); reflexivity.
Qed.

(** X6.  [load_global_op] with the low bit of its operand set pushes the
    null marker and then the global, which is the shape [call_op] takes for
    a plain call: once [N] arguments are pushed, [call_op N] invokes the
    global with exactly those arguments and leaves the result in place of
    marker, callable and arguments. *)
Theorem load_global_then_call (rt : ObjectRuntime) (fr : Frame)
    (namei : Z) (name : string) (g : value) (pos : list value) :
  Z.land namei 1 = 1 ->
  globals fr !! name = Some g ->
  kw_names fr = [] ->
  let fr1 := with_stack fr (data_stack fr ++ [VNone; g]) in
  load_global_op namei name fr = Ok fr1 /\
  call_op rt (len pos) (push fr1 pos) =
    let* result := call_value rt g pos [] in
    Ok (with_stack fr (data_stack fr ++ [result])).
Proof.
  intros Hbit Hg Hk fr1. split.
  - unfold load_global_op, push_null_op. rewrite Hbit.
    change (1 =? 1) with true. cbn [bind].
    change (globals (push fr [VNone])) with (globals fr). rewrite Hg.
    unfold fr1, push. cbn [data_stack with_stack].
    rewrite <- app_assoc. reflexivity.
  - rewrite (call_op_direct rt (push fr1 pos) (data_stack fr) pos g).
    + reflexivity.
    + unfold fr1, push. cbn [data_stack with_stack].
      rewrite <- app_assoc. reflexivity.
    + exact Hk.
Qed.

Lemma load_global_then_call_witness :
  let fr := with_globals empty_frame {[ "g" := VObj "g" [] ]} in
  let fr1 := with_stack fr [VNone; VObj "g" []] in
  load_global_op 1 "g" fr = Ok fr1 /\
  call_op host 2 (push fr1 [VInt 1; VInt 2]) =
    Ok (with_stack fr [VTuple [VStr "g"; VTuple [VInt 1; VInt 2]; VDict []]]).
Proof.
  exact (load_global_then_call host
           (with_globals empty_frame {[ "g" := VObj "g" [] ]})
           1 "g" (VObj "g" []) [VInt 1; VInt 2] eq_refl eq_refl eq_refl).
Defined.

(** X7.  [load_method_op] replaces the receiver by the null marker and the
    attribute found on it.  A [call_op] that follows therefore invokes the
    attribute with the explicit arguments only: the receiver is not passed
    again. *)
Theorem load_method_then_call (rt : ObjectRuntime) (fr : Frame)
    (s : list value) (obj m : value) (namei : string) (pos : list value) :
  data_stack fr = s ++ [obj] ->
  getattr rt obj namei = Ok m ->
  kw_names fr = [] ->
  let fr1 := with_stack fr (s ++ [VNone; m]) in
  load_method_op rt namei fr = Ok fr1 /\
  call_op rt (len pos) (push fr1 pos) =
    let* result := call_value rt m pos [] in
    Ok (with_stack fr (s ++ [result])).
Proof.
  intros Hs Hm Hk fr1. split.
  - unfold load_method_op, push_null_op.
    rewrite (pop_snoc fr s obj Hs). cbn [bind]. rewrite Hm. cbn [bind].
    unfold fr1, push. cbn [data_stack with_stack].
    rewrite <- app_assoc. reflexivity.
  - rewrite (call_op_direct rt (push fr1 pos) s pos m).
    + reflexivity.
    + unfold fr1, push. cbn [data_stack with_stack].
      rewrite <- app_assoc. reflexivity.
    + exact Hk.
Qed.

Lemma load_method_then_call_witness :
  let fr := with_stack empty_frame [VObj "point" [("norm", VObj "norm" [])]] in
  let fr1 := with_stack fr [VNone; VObj "norm" []] in
  load_method_op host "norm" fr = Ok fr1 /\
  call_op host 1 (push fr1 [VInt 2]) =
    Ok (with_stack fr [VTuple [VStr "norm"; VTuple [VInt 2]; VDict []]]).
Proof.
  exact (load_method_then_call host
           (with_stack empty_frame [VObj "point" [("norm", VObj "norm" [])]])
           [] (VObj "point" [("norm", VObj "norm" [])]) (VObj "norm" [])
           "norm" [VInt 2] eq_refl eq_refl eq_refl).
Defined.

(** ** Stack manipulation *)

Lemma subscript_from_end {A : Type} (below above : list A) (v : A) :
  subscript (below ++ v :: above) (- (len above + 1)) = Ok v.
Proof.
  unfold subscript. cbv zeta. pose proof (len_nonneg above).
  pose proof (len_nonneg below).
  replace (- (len above + 1) <? 0) with true by (symmetry; apply Z.ltb_lt; lia).
  rewrite len_app. replace (len (v :: above)) with (len above + 1)
    by (unfold len; simpl; lia).
  replace (len below + (len above + 1) + - (len above + 1) <? 0) with false
    by (symmetry; apply Z.ltb_ge; lia).
  replace (Z.to_nat (len below + (len above + 1) + - (len above + 1)))
    with (length below) by (unfold len; lia).
  rewrite list_lookup_middle; reflexivity.
Qed.

Lemma store_subscript_from_end {A : Type} (below above : list A) (v w : A) :
  store_subscript (below ++ v :: above) (- (len above + 1)) w
  = Ok (below ++ w :: above).
Proof.
  unfold store_subscript. cbv zeta. pose proof (len_nonneg above).
  pose proof (len_nonneg below).
  replace (- (len above + 1) <? 0) with true by (symmetry; apply Z.ltb_lt; lia).
  rewrite len_app. replace (len (v :: above)) with (len above + 1)
    by (unfold len; simpl; lia).
  replace (len below + (len above + 1) + - (len above + 1) <? 0) with false
    by (symmetry; apply Z.ltb_ge; lia).
  replace (len below + (len above + 1)
           <=? len below + (len above + 1) + - (len above + 1)) with false
    by (symmetry; apply Z.leb_gt; lia).
  replace (Z.to_nat (len below + (len above + 1) + - (len above + 1)))
    with (length below + 0)%nat by (unfold len; lia).
  cbn [orb]. rewrite insert_app_r. reflexivity.
Qed.

(** X8.  [copy_op i] pushes a copy of the value [i] places from the top,
    the top itself being place 1, and fails with [IndexError] when the stack
    is less than [i] deep.  Place 0 is not refused: on a stack that is not
    empty [copy_op 0] pushes the value at the bottom. *)
Theorem copy_op_place (fr : Frame) :
  (forall (below above : list value) (v : value),
      data_stack fr = below ++ v :: above ->
      copy_op (len above + 1) fr = Ok (push fr [v]))
  /\ (forall (v : value) (rest : list value),
         data_stack fr = v :: rest -> copy_op 0 fr = Ok (push fr [v]))
  /\ (forall i : Z,
         len (data_stack fr) < i -> copy_op i fr = Raise IndexError).
Proof.
  split; [|split].
  - intros below above v Hs. unfold copy_op.
    rewrite Hs, subscript_from_end. reflexivity.
  - intros v rest Hs. unfold copy_op. rewrite Hs. reflexivity.
  - intros i Hi. unfold copy_op, subscript. cbv zeta.
    pose proof (len_nonneg (data_stack fr)).
    replace (- i <? 0) with true by (symmetry; apply Z.ltb_lt; lia).
    replace (len (data_stack fr) + - i <? 0) with true
      by (symmetry; apply Z.ltb_lt; lia).
    reflexivity.
Qed.

Lemma copy_op_place_witness :
  let fr := with_stack empty_frame [VInt 1; VInt 2; VInt 3] in
  copy_op 2 fr = Ok (push fr [VInt 2]) /\
  copy_op 0 fr = Ok (push fr [VInt 1]) /\
  copy_op 4 fr = Raise IndexError.
Proof.
  intros fr. destruct (copy_op_place fr) as (H1 & H2 & H3).
  split; [|split].
  - exact (H1 [VInt 1] [VInt 3] (VInt 2) eq_refl).
  - exact (H2 (VInt 1) [VInt 2; VInt 3] eq_refl).
  - apply H3. reflexivity.
Defined.

(** X9.  [swap_op i] exchanges the top of the stack with the value [i]
    places from the top and touches nothing else, so that swapping twice
    restores the stack. *)
Theorem swap_op_exchanges (fr : Frame) (below mid : list value)
    (a b : value) :
  data_stack fr = below ++ a :: mid ++ [b] ->
  let fr1 := with_stack fr (below ++ b :: mid ++ [a]) in
  swap_op (len mid + 2) fr = Ok fr1 /\
  swap_op (len mid + 2) fr1 = Ok fr.
Proof.
  assert (Hswap : forall (g : Frame) (x y : value),
    data_stack g = below ++ x :: mid ++ [y] ->
    swap_op (len mid + 2) g = Ok (with_stack g (below ++ y :: mid ++ [x]))).
  { intros g x y Hg. unfold swap_op.
    replace (len mid + 2) with (len (mid ++ [y]) + 1)
      by (rewrite len_app; change (len [y]) with 1; lia).
    rewrite Hg, subscript_from_end. cbn [bind].
    rewrite (top_snoc g (below ++ x :: mid) y)
      by (rewrite Hg, <- app_assoc; reflexivity).
    cbn [bind]. rewrite store_subscript_from_end. cbn [bind].
    replace (below ++ y :: mid ++ [y]) with ((below ++ y :: mid) ++ [y])
      by (rewrite <- app_assoc; reflexivity).
    replace (-1) with (- (len (@nil value) + 1)) by reflexivity.
    rewrite store_subscript_from_end. cbn [bind].
    rewrite <- app_assoc. reflexivity. }
  intros Hs fr1. split.
  - apply Hswap. exact Hs.
  - rewrite (Hswap fr1 b a) by reflexivity.
    unfold fr1. rewrite with_stack_twice, <- Hs, with_stack_same.
    reflexivity.
Qed.

Lemma swap_op_exchanges_witness :
  let fr := with_stack empty_frame [VInt 0; VInt 1; VInt 2; VInt 3] in
  let fr1 := with_stack fr [VInt 0; VInt 3; VInt 2; VInt 1] in
  swap_op 3 fr = Ok fr1 /\ swap_op 3 fr1 = Ok fr.
Proof.
  exact (swap_op_exchanges
           (with_stack empty_frame [VInt 0; VInt 1; VInt 2; VInt 3])
           [VInt 0] [VInt 2] (VInt 1) (VInt 3) eq_refl).
Defined.

(** ** The offset index and the instruction pointer *)

(** X10.  When the offsets of the stream are pairwise distinct, the offset
    index sends the offset of each instruction to the position of that
    instruction. *)
Theorem build_index_position (ins_lst : list instruction) (i : nat)
    (ins : instruction) :
  NoDup (map offset ins_lst) ->
  ins_lst !! i = Some ins ->
  build_index 0 ins_lst ∅ !! offset ins = Some (Z.of_nat i).
Proof.
  intros Hnd Hl.
  assert (H : forall (l : list instruction) (k : Z) (ix : gmap Z Z) (j : nat),
             NoDup (map offset l) -> l !! j = Some ins ->
             build_index k l ix !! offset ins = Some (k + Z.of_nat j)).
  { induction l as [|a rest IH]; intros k ix j Hd Hj; [discriminate Hj|].
    cbn [map] in Hd. apply NoDup_cons in Hd as [Ha Hd].
    cbn [build_index]. destruct j as [|j].
    - injection Hj as ->. rewrite build_index_other by exact Ha.
      rewrite lookup_insert_eq. f_equal. lia.
    - rewrite (IH _ _ j Hd Hj). f_equal. lia. }
  rewrite (H ins_lst 0 ∅ i Hnd Hl). reflexivity.
Qed.

Lemma build_index_position_witness :
  build_index 0 loop_code ∅ !! 6 = Some 3.
Proof.
  apply (build_index_position loop_code 3 (Instruction 6 (LOAD_CONST VNone))).
  - apply (bool_decide_unpack _). vm_compute. exact I.
  - reflexivity.
Defined.

Lemma pop_with_stack (fr fr' : Frame) (v : value) :
  pop fr = Ok (v, fr') -> exists s, fr' = with_stack fr s.
Proof.
  unfold pop. destruct (last (data_stack fr)); [|discriminate].
  intros [= _ <-]. eexists. reflexivity.
Qed.

Lemma popn_with_stack (fr fr' : Frame) (n : Z) (vs : list value) :
  popn fr n = (vs, fr') -> exists s, fr' = with_stack fr s.
Proof.
  unfold popn. destruct (0 <? n); intros [= _ <-].
  - eexists. reflexivity.
  - exists (data_stack fr). symmetry. apply with_stack_same.
Qed.

Ltac frame_step :=
  match goal with
  | H : Raise _ = Ok _ |- _ => discriminate H
  | H : Ok _ = Ok _ |- _ => injection H as <-
  | H : pop _ = Ok (_, _) |- _ => apply pop_with_stack in H as [? ->]
  | H : popn _ _ = (_, _) |- _ => apply popn_with_stack in H as [? ->]
  | H : bind ?m _ = Ok _ |- _ =>
      let E := fresh "E" in
      destruct m as [?|?] eqn:E; cbn [bind] in H; [|discriminate H]
  | H : match ?x with _ => _ end = Ok _ |- _ => destruct x eqn:?
  end.

Ltac unfold_handlers H :=
  unfold resume_op, push_null_op, precall_op, call_op, load_name_op,
    load_global_op, load_const_op, return_value_op, pop_top_op,
    make_function_op, store_name_op, store_global_op, store_fast_op,
    binary_op_op, get_iter_op, jump_forward_op, jump_backward_op,
    for_iter_op, pop_jump_forward_if_true_op, pop_jump_forward_if_false_op,
    pop_jump_backward_if_true_op, pop_jump_backward_if_false_op,
    jump_if_true_or_pop_op, jump_if_false_or_pop_op, load_fast_op,
    load_name_op, pop_jump_forward_if_none_op, build_list_op, build_set_op,
    format_value_op, nop_op, copy_op, load_method_op, push_null_op,
    build_tuple_op, kw_names_op, load_attr_op, swap_op, jump_forward_op,
    unhashable in H.

Ltac frame_fields :=
  cbn [code builtins globals locals data_stack return_value index counter
       last_raised_exception kw_names iterators push with_stack with_counter
       with_return_value with_locals with_globals with_kw_names
       with_iterators with_index] in *.

(** X11.  An instruction that is not a jump leaves the instruction pointer
    to the loop: after a round that fetched such an instruction and did not
    leave the loop, the pointer has advanced by exactly one. *)
Theorem round_advances_by_one (rt : ObjectRuntime)
    (ins_lst : list instruction) (fr fr' : Frame) (ins : instruction) :
  subscript ins_lst (counter fr) = Ok ins ->
  is_jump (operation ins) = false ->
  round rt ins_lst fr = Ok (fr', false) ->
  counter fr' = counter fr + 1.
Proof.
  intros Hf Hj Hr. unfold round in Hr.
  destruct (len ins_lst <=? counter fr); [discriminate Hr|].
  rewrite Hf in Hr. cbn [bind] in Hr.
  destruct (execute rt (operation ins) fr) as [fr1|] eqn:He;
    [|discriminate Hr].
  cbn [bind] in Hr.
  destruct (is_return (operation ins)); [discriminate Hr|].
  injection Hr as <-. cbn [counter with_counter]. f_equal.
  destruct (operation ins); try discriminate Hj; cbn [execute] in He;
    unfold_handlers He; repeat frame_step; subst; frame_fields; congruence.
Qed.

Lemma round_advances_by_one_witness :
  counter (with_counter (push (with_counter skip_frame 1) [VInt 1]) 2)
  = counter (with_counter skip_frame 1) + 1.
Proof.
  apply (round_advances_by_one host skip_code (with_counter skip_frame 1)
           _ (Instruction 2 (LOAD_CONST (VInt 1)))); reflexivity.
Defined.

(** ** Straight-line code *)

Lemma load_const_rounds (rt : ObjectRuntime) (vs : list value) :
  forall (pre loads rest : list instruction) (fr : Frame),
    map operation loads = map LOAD_CONST vs ->
    counter fr = len pre ->
    rounds rt (length vs) (pre ++ loads ++ rest) fr
    = Some (with_counter (with_stack fr (data_stack fr ++ vs))
                         (counter fr + len vs)).
Proof.
  induction vs as [|v vs IH]; intros pre loads rest fr Hm Hc.
  - cbn [rounds]. rewrite app_nil_r. change (len (@nil value)) with 0.
    rewrite Z.add_0_r. destruct fr; reflexivity.
  - destruct loads as [|l loads]; [discriminate Hm|].
    cbn [map] in Hm. injection Hm as Hl Hm.
    assert (R : round rt (pre ++ (l :: loads) ++ rest) fr
                = Ok (with_counter (push fr [v]) (counter fr + 1), false)).
    { rewrite (round_at rt _ fr l).
      - rewrite Hl. reflexivity.
      - rewrite Hc. apply len_nonneg.
      - rewrite Hc. unfold len. rewrite Nat2Z.id.
        apply list_lookup_middle. reflexivity. }
    change (length (v :: vs)) with (S (length vs)). cbn [rounds]. rewrite R.
    replace (pre ++ (l :: loads) ++ rest) with ((pre ++ [l]) ++ loads ++ rest)
      by (rewrite <- app_assoc; reflexivity).
    rewrite (IH (pre ++ [l]) loads rest _ Hm)
      by (cbn [counter with_counter]; rewrite Hc, len_app; reflexivity).
    f_equal. unfold with_counter, with_stack, push. frame_fields.
    rewrite <- app_assoc.
    replace (counter fr + 1 + len vs) with (counter fr + len (v :: vs))
      by (unfold len; simpl; lia).
    reflexivity.
Qed.

(** X13.  A code unit that loads [N] constants, builds a list of [N]
    values and returns runs to completion and returns the list of the
    constants in the order they were loaded; whatever follows the return
    instruction is never executed. *)
Theorem load_build_return (rt : ObjectRuntime) (fuel : nat) (c : CodeType)
    (vs : list value) (loads rest : list instruction) (o1 o2 : Z)
    (bs gs ls : gmap string value) (st : gmap nat (list value)) :
  get_instructions c =
    loads ++ [Instruction o1 (BUILD_LIST (len vs));
              Instruction o2 RETURN_VALUE] ++ rest ->
  map operation loads = map LOAD_CONST vs ->
  run rt (length vs + (2 + fuel)) (new_frame c bs gs ls st)
  = Some (Ok (VList vs)).
Proof.
  intros Hc Hm. unfold run.
  change (get_instructions (code (new_frame c bs gs ls st)))
    with (get_instructions c).
  rewrite Hc.
  set (tail := [Instruction o1 (BUILD_LIST (len vs));
                Instruction o2 RETURN_VALUE] ++ rest).
  set (fr0 := prepare (new_frame c bs gs ls st)).
  pose proof (load_const_rounds rt vs [] loads tail fr0 Hm eq_refl) as Hr.
  cbn [app] in Hr. rewrite (rounds_run_loop rt _ _ _ _ _ Hr).
  set (fr1 := with_counter (with_stack fr0 (data_stack fr0 ++ vs))
                           (counter fr0 + len vs)).
  assert (Hlen : length loads = length vs).
  { rewrite <- (length_map operation loads), Hm. apply length_map. }
  assert (R1 : round rt (loads ++ tail) fr1
               = Ok (with_counter (with_stack fr1 [VList vs])
                                  (len vs + 1), false)).
  { rewrite (round_at rt _ fr1 (Instruction o1 (BUILD_LIST (len vs)))).
    - cbn [operation execute is_return]. unfold build_list_op.
      rewrite (popn_suffix fr1 [] vs) by reflexivity. reflexivity.
    - apply len_nonneg.
    - replace (Z.to_nat (counter fr1)) with (length loads)
        by (change (counter fr1) with (0 + len vs); unfold len; lia).
      apply list_lookup_middle. reflexivity. }
  change (2 + fuel)%nat with (S (S fuel)).
  rewrite (run_loop_next rt _ _ _ _ R1).
  set (fr2 := with_counter (with_stack fr1 [VList vs]) (len vs + 1)).
  cbn [run_loop].
  rewrite (round_at rt _ fr2 (Instruction o2 RETURN_VALUE)).
  - reflexivity.
  - cbn [counter fr2 with_counter]. pose proof (len_nonneg vs). lia.
  - change (counter fr2) with (len vs + 1).
    replace (Z.to_nat (len vs + 1)) with (length loads + 1)%nat
      by (unfold len; lia).
    unfold tail. rewrite lookup_app_r by lia.
    replace (length loads + 1 - length loads)%nat with 1%nat by lia.
    reflexivity.
Qed.

Lemma load_build_return_witness :
  run host 4 (new_frame two_consts ∅ ∅ ∅ ∅)
  = Some (Ok (VList [VInt 1; VInt 2])).
Proof.
  exact (load_build_return host 0 two_consts [VInt 1; VInt 2]
           [Instruction 0 (LOAD_CONST (VInt 1));
            Instruction 2 (LOAD_CONST (VInt 2))]
           [Instruction 8 (NO_HANDLER "CACHE")] 4 6 ∅ ∅ ∅ ∅
           eq_refl eq_refl).
Defined.

(** ** Dictionaries *)

Lemma dict_get_set_eq {V : Type} (d : dict V) (k : string) (v : V) :
  dict_get (dict_set d k v) k = Some v.
Proof.
  induction d as [|[k' v'] d IH]; cbn [dict_set dict_get].
  - rewrite String.eqb_refl. reflexivity.
  - destruct (String.eqb k' k) eqn:E; cbn [dict_get]; rewrite E;
      [reflexivity|exact IH].
Qed.

Lemma dict_get_set_ne {V : Type} (d : dict V) (k k' : string) (v : V) :
  k <> k' -> dict_get (dict_set d k v) k' = dict_get d k'.
Proof.
  intros N. induction d as [|[q w] d IH]; cbn [dict_set dict_get].
  - destruct (String.eqb k k') eqn:E; [|reflexivity].
    apply String.eqb_eq in E. contradiction.
  - destruct (String.eqb q k) eqn:E; cbn [dict_get].
    + apply String.eqb_eq in E. subst q.
      destruct (String.eqb k k') eqn:E'; [|reflexivity].
      apply String.eqb_eq in E'. contradiction.
    + destruct (String.eqb q k'); [reflexivity|exact IH].
Qed.

Lemma dict_set_absent {V : Type} (d : dict V) (k : string) (v : V) :
  dict_get d k = None -> dict_set d k v = d ++ [(k, v)].
Proof.
  induction d as [|[q w] d IH]; cbn [dict_set dict_get]; intros H;
    [reflexivity|].
  destruct (String.eqb q k); [discriminate H|].
  rewrite IH by exact H. reflexivity.
Qed.

Lemma dict_get_app_absent {V : Type} (d e : dict V) (k : string) :
  dict_get d k = None -> dict_get (d ++ e) k = dict_get e k.
Proof.
  induction d as [|[q w] d IH]; cbn [dict_get app]; intros H; [reflexivity|].
  destruct (String.eqb q k); [discriminate H|]. apply IH. exact H.
Qed.

Lemma dict_get_app_present {V : Type} (d e : dict V) (k : string) (v : V) :
  dict_get d k = Some v -> dict_get (d ++ e) k = Some v.
Proof.
  induction d as [|[q w] d IH]; cbn [dict_get app]; intros H;
    [discriminate H|].
  destruct (String.eqb q k); [exact H|]. apply IH. exact H.
Qed.

Lemma dict_get_zip_absent {V : Type} (ks : list string) (vs : list V)
    (k : string) :
  k ∉ ks -> dict_get (zip_names ks vs) k = None.
Proof.
  revert vs. induction ks as [|q ks IH]; intros vs Hn; [reflexivity|].
  destruct vs as [|v vs]; [reflexivity|]. cbn [zip_names dict_get].
  apply not_elem_of_cons in Hn as [Hne Hn].
  destruct (String.eqb q k) eqn:E.
  - apply String.eqb_eq in E. congruence.
  - apply IH. exact Hn.
Qed.

Lemma dict_get_zip_lookup {V : Type} (ks : list string) (vs : list V)
    (i : nat) (k : string) (v : V) :
  NoDup ks -> ks !! i = Some k -> vs !! i = Some v ->
  dict_get (zip_names ks vs) k = Some v.
Proof.
  revert vs i. induction ks as [|q ks IH]; intros vs i Hd Hk Hv;
    [discriminate Hk|].
  destruct vs as [|w vs]; [destruct i; discriminate Hv|].
  apply NoDup_cons in Hd as [Hq Hd]. cbn [zip_names dict_get].
  destruct i as [|i].
  - injection Hk as ->. injection Hv as ->.
    rewrite String.eqb_refl. reflexivity.
  - cbn in Hk, Hv. destruct (String.eqb q k) eqn:E.
    + apply String.eqb_eq in E. subst q.
      exfalso. apply Hq. eapply list_elem_of_lookup_2. exact Hk.
    + eapply IH; eassumption.
Qed.

Lemma zip_names_app {V : Type} (ks ks' : list string) (vs vs' : list V) :
  length ks = length vs ->
  zip_names (ks ++ ks') (vs ++ vs') = zip_names ks vs ++ zip_names ks' vs'.
Proof.
  revert vs. induction ks as [|k ks IH]; intros [|v vs] H;
    try discriminate H; [reflexivity|].
  cbn [app zip_names]. rewrite IH by (simpl in H; lia). reflexivity.
Qed.

Lemma subscript_middle {A : Type} (pre post : list A) (x : A) :
  subscript (pre ++ x :: post) (len pre) = Ok x.
Proof.
  apply subscript_lookup; [apply len_nonneg|].
  unfold len. rewrite Nat2Z.id. apply list_lookup_middle. reflexivity.
Qed.

(** ** Binding errors and bindings *)

Lemma dict_mem_absent (d : dict value) (k : string) :
  dict_get d k = None -> dict_mem d k = false.
Proof. intros H. unfold dict_mem. rewrite H. reflexivity. Qed.

Lemma dict_mem_present (d : dict value) (k : string) (v : value) :
  dict_get d k = Some v -> dict_mem d k = true.
Proof. intros H. unfold dict_mem. rewrite H. reflexivity. Qed.

(** The loop over the positional arguments, on parameters none of which is
    bound yet.  With a variadic collector the loop stops in front of the
    arguments that were diverted to it. *)
Lemma bind_positionals_fresh (others : list string) (has_varargs : bool)
    (vararg_name : string) (nargs : Z) (extra : list value) :
  (has_varargs = false -> extra = []) ->
  forall (post pre : list string) (rem : list value) (parsed : dict value),
    NoDup post ->
    (forall q, q ∈ post -> dict_get parsed q = None) ->
    length rem = length post ->
    (has_varargs = true ->
     (vararg_name ∉ post) /\
     dict_get parsed vararg_name = Some (VTuple extra) /\
     nargs - len extra = len (pre ++ post)) ->
    bind_positionals (pre ++ post ++ others) has_varargs vararg_name nargs
                     parsed (len pre) (rem ++ extra)
    = Ok (parsed ++ zip_names post rem).
Proof.
  intros Hextra.
  induction post as [|q post IH]; intros pre rem parsed Hd Hfresh Hlen Hva.
  - destruct rem; [|discriminate Hlen]. cbn [app zip_names].
    rewrite app_nil_r. destruct extra as [|e extra]; [reflexivity|].
    cbn [bind_positionals]. destruct has_varargs.
    + destruct (Hva eq_refl) as (_ & Hg & Hn). rewrite Hg.
      cbn [bind value_len]. rewrite app_nil_r in Hn.
      replace (nargs - len (e :: extra) <=? len pre) with true
        by (symmetry; apply Z.leb_le; lia).
      reflexivity.
    + discriminate (Hextra eq_refl).
  - destruct rem as [|a rem]; [discriminate Hlen|].
    apply NoDup_cons in Hd as [Hq Hd].
    cbn [app bind_positionals].
    assert (Hstop :
      (if has_varargs
       then match dict_get parsed vararg_name with
            | Some v => (let* n := value_len v in Ok (nargs - n <=? len pre))
            | None => Raise KeyError
            end
       else Ok false) = Ok false).
    { destruct has_varargs; [|reflexivity].
      destruct (Hva eq_refl) as (_ & Hg & Hn). rewrite Hg.
      cbn [bind value_len]. rewrite len_app in Hn.
      pose proof (len_nonneg post).
      replace (len (q :: post)) with (len post + 1) in Hn
        by (unfold len; simpl; lia).
      replace (nargs - len extra <=? len pre) with false
        by (symmetry; apply Z.leb_gt; lia).
      reflexivity. }
    rewrite Hstop. cbn [bind].
    rewrite subscript_middle. cbn [bind].
    rewrite (dict_mem_absent parsed q) by (apply Hfresh; left).
    rewrite (dict_set_absent parsed q a) by (apply Hfresh; left).
    replace (pre ++ q :: post ++ others) with ((pre ++ [q]) ++ post ++ others)
      by (rewrite <- app_assoc; reflexivity).
    replace (len pre + 1) with (len (pre ++ [q]))
      by (rewrite len_app; reflexivity).
    rewrite (IH (pre ++ [q]) rem (parsed ++ [(q, a)]) Hd).
    + cbn [zip_names]. rewrite <- app_assoc. reflexivity.
    + intros r Hr. rewrite dict_get_app_absent by (apply Hfresh; right; exact Hr).
      cbn [dict_get]. destruct (String.eqb q r) eqn:E; [|reflexivity].
      apply String.eqb_eq in E. subst r. contradiction.
    + simpl in Hlen. lia.
    + intros Hv. destruct (Hva Hv) as (Hn & Hg & Hl).
      apply not_elem_of_cons in Hn as [Hne Hn].
      split; [exact Hn|]. split.
      * apply dict_get_app_present. exact Hg.
      * rewrite Hl, <- app_assoc. reflexivity.
Qed.

Lemma check_bound_all (names : list string) (parsed : dict value)
    (err : string) (positions : list Z) :
  (forall i, i ∈ positions ->
     exists name v, subscript names i = Ok name /\
                    dict_get parsed name = Some v) ->
  check_bound names parsed err positions = Ok tt.
Proof.
  induction positions as [|i positions IH]; intros H; [reflexivity|].
  cbn [check_bound].
  destruct (H i) as (name & v & Hs & Hg); [left|].
  rewrite Hs. cbn [bind]. rewrite (dict_mem_present _ _ _ Hg).
  apply IH. intros j Hj. apply H. right. exact Hj.
Qed.

Lemma range_empty (a b : Z) : b <= a -> range a b = [].
Proof.
  intros H. unfold range, seqZ.
  replace (Z.to_nat (b - a)) with 0%nat by lia. reflexivity.
Qed.

Lemma elem_of_range (a b i : Z) : i ∈ range a b -> a <= i < b.
Proof. unfold range. intros H. apply elem_of_seqZ in H. lia. Qed.

(** The positions below the number of parameters name parameters. *)
Lemma bound_parameters (params others : list string) (vals : list value)
    (base : dict value) (i : Z) :
  NoDup params -> length vals = length params ->
  (forall q, q ∈ params -> dict_get base q = None) ->
  0 <= i < len params ->
  exists name v,
    subscript (params ++ others) i = Ok name /\
    dict_get (base ++ zip_names params vals) name = Some v.
Proof.
  intros Hd Hl Hb Hi.
  assert (Hlt : (Z.to_nat i < length params)%nat) by (unfold len in Hi; lia).
  destruct (lookup_lt_is_Some_2 params _ Hlt) as [name Hn].
  assert (Hlt' : (Z.to_nat i < length vals)%nat) by lia.
  destruct (lookup_lt_is_Some_2 vals _ Hlt') as [v Hv].
  exists name, v. split.
  - apply subscript_lookup; [lia|]. rewrite lookup_app_l by exact Hlt.
    exact Hn.
  - rewrite dict_get_app_absent
      by (apply Hb; eapply list_elem_of_lookup_2; exact Hn).
    eapply dict_get_zip_lookup; eassumption.
Qed.

(** X14.  A function without collectors, called with as many positional
    arguments as it has parameters and no keyword, binds its parameters to
    the arguments in order.  The local variables that follow the parameters
    in the variable names are left out of the binding, and the defaults are
    not consulted. *)
Theorem positional_call_binds_in_order (params others : list string)
    (p nlocals flags : Z) (consts : list value) (ins : list instruction)
    (args_default : value) (args : list value) :
  Z.land flags 4 = 0 ->
  Z.land flags 8 = 0 ->
  NoDup params ->
  length args = length params ->
  0 <= p <= len params ->
  arg_binding (Code (params ++ others) (len params) p 0 nlocals flags
                    consts ins)
              args_default (VDict []) args []
  = Ok (zip_names params args).
Proof.
  intros H4 H8 Hd Hl Hp. unfold arg_binding.
  cbn [co_varnames co_argcount co_posonlyargcount co_kwonlyargcount
       co_nlocals co_flags].
  rewrite H4, H8. cbn [Z.eqb negb bind].
  replace (len params <? len args) with false
    by (symmetry; apply Z.ltb_ge; unfold len; lia).
  cbn [bind bind_kw_defaults bind_keywords].
  pose proof (bind_positionals_fresh others false EmptyString (len args) []
                (fun _ => eq_refl) params [] args [] Hd
                (fun _ _ => eq_refl) Hl
                (fun H => False_ind _ (Bool.diff_false_true H))) as Hb.
  rewrite app_nil_r in Hb. cbn [app] in Hb. change (len (@nil string)) with 0 in Hb.
  rewrite Hb. cbn [bind].
  rewrite (range_empty (len args) (len params)) by (unfold len; lia).
  cbn [bind_defaults bind].
  rewrite check_bound_all.
  - cbn [bind]. rewrite (range_empty (len params) (len params + 0)) by lia.
    reflexivity.
  - intros i Hi. apply elem_of_range in Hi.
    apply (bound_parameters params others args [] i Hd Hl); [|lia].
    reflexivity.
Qed.

Lemma positional_call_binds_in_order_witness :
  arg_binding one_param_one_local (VTuple []) (VDict []) [VInt 5] []
  = Ok [("a", VInt 5)].
Proof.
  apply (positional_call_binds_in_order ["a"] ["x"] 0 2 3 [] []
           (VTuple []) [VInt 5]).
  - reflexivity.
  - reflexivity.
  - apply (bool_decide_unpack _). vm_compute. exact I.
  - reflexivity.
  - split; [reflexivity|discriminate].
Defined.

(** X15.  A function that declares no collector refuses a call with more
    positional arguments than it has positional parameters, before looking
    at the keywords or the defaults. *)
Theorem too_many_positional (c : CodeType) (args_default kwargs_default : value)
    (args : list value) (kwargs : dict value) :
  Z.land (co_flags c) 4 = 0 ->
  Z.land (co_flags c) 8 = 0 ->
  co_argcount c < len args ->
  arg_binding c args_default kwargs_default args kwargs
  = Raise (TypeError ERR_TOO_MANY_POS_ARGS).
Proof.
  intros H4 H8 Hn. unfold arg_binding. rewrite H4, H8.
  cbn [Z.eqb negb bind].
  replace (co_argcount c <? len args) with true
    by (symmetry; apply Z.ltb_lt; exact Hn).
  reflexivity.
Qed.

Lemma too_many_positional_witness :
  arg_binding scenario_two (VTuple [VInt 10]) (VDict [])
              [VInt 1; VInt 2; VInt 3] [("b", VInt 4)]
  = Raise (TypeError ERR_TOO_MANY_POS_ARGS).
Proof.
  apply too_many_positional; reflexivity.
Defined.

(** X16.  In a function with a variadic-positional collector, the
    positional arguments beyond the positional parameters are bound, in
    order, to the collector as a tuple, and the parameters are bound to the
    leading arguments; the binding lists the collector first. *)
Theorem varargs_collects_overflow (params others : list string)
    (va : string) (p flags : Z) (consts : list value)
    (ins : list instruction) (args_default : value)
    (first extra : list value) :
  Z.land flags 4 <> 0 ->
  Z.land flags 8 = 0 ->
  NoDup (va :: params) ->
  length first = length params ->
  0 <= p <= len params ->
  arg_binding (Code (params ++ va :: others) (len params) p 0
                    (len (params ++ va :: others)) flags consts ins)
              args_default (VDict []) (first ++ extra) []
  = Ok ((va, VTuple extra) :: zip_names params first).
Proof.
  intros H4 H8 Hd Hl Hp. apply NoDup_cons in Hd as [Hva Hd].
  unfold arg_binding.
  cbn [co_varnames co_argcount co_posonlyargcount co_kwonlyargcount
       co_nlocals co_flags].
  replace (Z.land flags 4 =? 0) with false
    by (symmetry; apply Z.eqb_neq; exact H4).
  rewrite H8. cbn [Z.eqb negb].
  replace (len params + 0 - len (params ++ va :: others))
    with (- (len others + 1))
    by (rewrite len_app; unfold len; simpl; lia).
  rewrite subscript_from_end. cbn [bind dict_set].
  assert (Hover :
    (if len params <? len (first ++ extra)
     then Ok (dict_set [(va, VTuple [])] va
                       (VTuple (slice_from (first ++ extra) (len params))))
     else Ok [(va, VTuple [])]) = Ok [(va, VTuple extra)]).
  { destruct (len params <? len (first ++ extra)) eqn:E.
    - cbn [dict_set]. rewrite String.eqb_refl.
      unfold slice_from, slice_bound.
      pose proof (len_nonneg params).
      replace (len params <? 0) with false by (symmetry; apply Z.ltb_ge; lia).
      apply Z.ltb_lt in E.
      replace (Z.to_nat (Z.min (len params) (len (first ++ extra))))
        with (length first) by (unfold len in *; lia).
      rewrite drop_app_length. reflexivity.
    - apply Z.ltb_ge in E. rewrite len_app in E.
      destruct extra as [|e extra]; [reflexivity|].
      unfold len in E. simpl in E. lia. }
  cbn [negb]. cbn [dict_set] in Hover. rewrite Hover. cbn [bind bind_kw_defaults bind_keywords].
  pose proof (bind_positionals_fresh (va :: others) true va
                (len (first ++ extra)) extra
                (fun H => False_ind _ (Bool.diff_true_false H))
                params [] first [(va, VTuple extra)] Hd) as Hb.
  cbn [app] in Hb. change (len (@nil string)) with 0 in Hb.
  rewrite Hb.
  - cbn [bind app].
    rewrite (range_empty (len (first ++ extra)) (len params))
      by (rewrite len_app; pose proof (len_nonneg extra); unfold len in *; lia).
    cbn [bind_defaults bind].
    rewrite check_bound_all.
    + cbn [bind]. rewrite (range_empty (len params) (len params + 0)) by lia.
      reflexivity.
    + intros i Hi. apply elem_of_range in Hi.
      apply (bound_parameters params (va :: others) first
               [(va, VTuple extra)] i Hd Hl); [|lia].
      intros q Hq. cbn [dict_get].
      destruct (String.eqb va q) eqn:E; [|reflexivity].
      apply String.eqb_eq in E. subst q. contradiction.
  - intros q Hq. cbn [dict_get].
    destruct (String.eqb va q) eqn:E; [|reflexivity].
    apply String.eqb_eq in E. subst q. contradiction.
  - exact Hl.
  - intros _. split; [exact Hva|]. split.
    + cbn [dict_get]. rewrite String.eqb_refl. reflexivity.
    + rewrite len_app. unfold len. lia.
Qed.

Lemma varargs_collects_overflow_witness :
  arg_binding (Code ["a"; "rest"] 1 0 0 2 7 [] []) (VTuple []) (VDict [])
              [VInt 1; VInt 2; VInt 3] []
  = Ok [("rest", VTuple [VInt 2; VInt 3]); ("a", VInt 1)].
Proof.
  apply (varargs_collects_overflow ["a"] [] "rest" 0 7 [] [] (VTuple [])
           [VInt 1] [VInt 2; VInt 3]).
  - discriminate.
  - reflexivity.
  - apply (bool_decide_unpack _). vm_compute. exact I.
  - reflexivity.
  - split; [reflexivity|discriminate].
Defined.

Lemma name_in_elem (key : string) (names : list string) :
  key ∈ names -> name_in key names = true.
Proof.
  intros H. unfold name_in. apply existsb_exists. exists key. split.
  - apply list_elem_of_In. exact H.
  - apply String.eqb_refl.
Qed.

Lemma name_index_middle (pre post : list string) (key : string) :
  key ∉ pre -> name_index (pre ++ key :: post) key = len pre.
Proof.
  induction pre as [|q pre IH]; intros Hn; cbn [app name_index].
  - rewrite String.eqb_refl. reflexivity.
  - apply not_elem_of_cons in Hn as [Hne Hn].
    destruct (String.eqb q key) eqn:E.
    + apply String.eqb_eq in E. congruence.
    + rewrite IH by exact Hn. unfold len. simpl. lia.
Qed.

(** The loop over the positional arguments reaches a parameter that a
    keyword has bound already. *)
Lemma bind_positionals_clash (key : string) (post : list string)
    (vararg_name : string) (nargs : Z) :
  forall (mid pre : list string) (args : list value) (parsed : dict value),
    NoDup mid -> key ∉ mid ->
    (forall q, q ∈ mid -> dict_get parsed q = None) ->
    is_Some (dict_get parsed key) ->
    (length mid < length args)%nat ->
    bind_positionals (pre ++ mid ++ key :: post) false vararg_name nargs
                     parsed (len pre) args
    = Raise (TypeError ERR_MULT_VALUES_FOR_ARG).
Proof.
  induction mid as [|q mid IH]; intros pre args parsed Hd Hk Hfresh Hp Hl.
  - destruct args as [|a args]; [simpl in Hl; lia|].
    cbn [app bind_positionals bind]. rewrite subscript_middle. cbn [bind].
    destruct Hp as [v Hv]. rewrite (dict_mem_present _ _ _ Hv). reflexivity.
  - destruct args as [|a args]; [simpl in Hl; lia|].
    apply NoDup_cons in Hd as [Hq Hd].
    apply not_elem_of_cons in Hk as [Hkq Hk].
    cbn [app bind_positionals bind]. rewrite subscript_middle. cbn [bind].
    rewrite (dict_mem_absent parsed q) by (apply Hfresh; left).
    replace (pre ++ q :: mid ++ key :: post)
      with ((pre ++ [q]) ++ mid ++ key :: post)
      by (rewrite <- app_assoc; reflexivity).
    replace (len pre + 1) with (len (pre ++ [q]))
      by (rewrite len_app; reflexivity).
    apply IH.
    + exact Hd.
    + exact Hk.
    + intros r Hr. rewrite dict_get_set_ne by congruence.
      apply Hfresh. right. exact Hr.
    + rewrite dict_get_set_ne by congruence. exact Hp.
    + simpl in Hl. lia.
Qed.

(** X17.  A parameter that receives a positional argument and is also
    named by a keyword makes the call fail with the multiple-values error:
    the keyword is bound first, and the loop over the positional arguments
    then finds the parameter taken. *)
Theorem keyword_repeats_positional (mid post : list string) (key : string)
    (p nlocals flags : Z) (consts : list value) (ins : list instruction)
    (args_default : value) (args : list value) (v : value) :
  Z.land flags 4 = 0 ->
  Z.land flags 8 = 0 ->
  NoDup (key :: mid) ->
  (length mid < length args)%nat ->
  len args <= len (mid ++ key :: post) ->
  p <= len mid ->
  arg_binding (Code (mid ++ key :: post) (len (mid ++ key :: post)) p 0
                    nlocals flags consts ins)
              args_default (VDict []) args [(key, v)]
  = Raise (TypeError ERR_MULT_VALUES_FOR_ARG).
Proof.
  intros H4 H8 Hd Hl Hn Hp. apply NoDup_cons in Hd as [Hk Hd].
  unfold arg_binding.
  cbn [co_varnames co_argcount co_posonlyargcount co_kwonlyargcount
       co_nlocals co_flags].
  rewrite H4, H8. cbn [Z.eqb negb bind].
  replace (len (mid ++ key :: post) <? len args) with false
    by (symmetry; apply Z.ltb_ge; exact Hn).
  cbn [bind bind_kw_defaults bind_keywords]. unfold bind_keyword.
  rewrite name_in_elem by (apply elem_of_app; right; left).
  rewrite name_index_middle by exact Hk.
  replace (len mid <? p) with false by (symmetry; apply Z.ltb_ge; exact Hp).
  cbn [negb bind dict_set].
  pose proof (bind_positionals_clash key post EmptyString (len args)
                mid [] args [(key, v)] Hd Hk) as Hb.
  cbn [app] in Hb. change (len (@nil string)) with 0 in Hb.
  rewrite Hb; [reflexivity| | |exact Hl].
  - intros q Hq. cbn [dict_get].
    destruct (String.eqb key q) eqn:E; [|reflexivity].
    apply String.eqb_eq in E. subst q. contradiction.
  - exists v. cbn [dict_get]. rewrite String.eqb_refl. reflexivity.
Qed.

Lemma keyword_repeats_positional_witness :
  arg_binding scenario_two (VTuple [VInt 10]) (VDict [])
              [VInt 1; VInt 2] [("b", VInt 3)]
  = Raise (TypeError ERR_MULT_VALUES_FOR_ARG).
Proof.
  apply (keyword_repeats_positional ["a"] [] "b" 0 2 3 [] []
           (VTuple [VInt 10]) [VInt 1; VInt 2] (VInt 3)).
  - reflexivity.
  - reflexivity.
  - apply (bool_decide_unpack _). vm_compute. exact I.
  - simpl. lia.
  - discriminate.
  - discriminate.
Defined.

(** X18.  A keyword that names a positional-only parameter is refused with
    the positional-only error when the function has no variadic-keyword
    collector; when it has one, the keyword goes into the collector under
    that name instead. *)
Theorem positional_only_by_keyword (c : CodeType)
    (args_default : value) (args : list value) (kwargs : dict value)
    (pre post : list string) (key : string) (v : value) :
  co_varnames c = pre ++ key :: post ->
  key ∉ pre ->
  len pre < co_posonlyargcount c ->
  Z.land (co_flags c) 4 = 0 ->
  len args <= co_argcount c ->
  (Z.land (co_flags c) 8 = 0 ->
   arg_binding c args_default (VDict []) args ((key, v) :: kwargs)
   = Raise (TypeError ERR_POSONLY_PASSED_AS_KW))
  /\ (forall (varkw_name : string) (parsed : dict value),
        bind_keyword (co_varnames c) (co_posonlyargcount c) true varkw_name
                     parsed key v
        = collect_keyword varkw_name parsed key v).
Proof.
  intros Hn Hk Hp H4 Ha.
  assert (Hin : name_in key (co_varnames c) = true)
    by (rewrite Hn; apply name_in_elem, elem_of_app; right; left).
  assert (Hix : (name_index (co_varnames c) key <? co_posonlyargcount c) = true)
    by (rewrite Hn, name_index_middle by exact Hk; apply Z.ltb_lt; exact Hp).
  split.
  - intros H8. unfold arg_binding. rewrite H4, H8.
    cbn [Z.eqb negb bind].
    replace (co_argcount c <? len args) with false
      by (symmetry; apply Z.ltb_ge; exact Ha).
    cbn [bind bind_kw_defaults bind_keywords]. unfold bind_keyword.
    rewrite Hin, Hix. reflexivity.
  - intros varkw_name parsed. unfold bind_keyword. rewrite Hin, Hix.
    reflexivity.
Qed.

Lemma positional_only_by_keyword_witness :
  arg_binding (Code ["a"; "b"] 2 1 0 2 3 [] []) (VTuple []) (VDict []) []
              [("a", VInt 1); ("b", VInt 2)]
  = Raise (TypeError ERR_POSONLY_PASSED_AS_KW)
  /\ bind_keyword ["a"; "b"] 1 true "kw" [("kw", VDict [])] "a" (VInt 1)
     = Ok [("kw", VDict [("a", VInt 1)])].
Proof.
  destruct (positional_only_by_keyword (Code ["a"; "b"] 2 1 0 2 3 [] [])
              (VTuple []) [] [("b", VInt 2)] [] ["b"] "a" (VInt 1))
    as [H1 H2].
  - reflexivity.
  - apply not_elem_of_nil.
  - reflexivity.
  - reflexivity.
  - discriminate.
  - split.
    + apply H1. reflexivity.
    + transitivity (collect_keyword "kw" [("kw", VDict [])] "a" (VInt 1));
        [exact (H2 _ _)|reflexivity].
Defined.

(** The loop over the parameters that received no positional argument,
    when no keyword was passed: each takes the default aligned with it from
    the end of the parameter list. *)
Lemma bind_defaults_fill (others : list string) (n : Z) (ds : list value) :
  forall (post pre : list string) (parsed : dict value),
    NoDup post ->
    (forall q, q ∈ post -> dict_get parsed q = None) ->
    n = len pre + len post ->
    len post <= len ds ->
    bind_defaults (pre ++ post ++ others) n (VTuple ds) [] parsed
                  (seqZ (len pre) (len post))
    = Ok (parsed ++ zip_names post (drop (length ds - length post) ds)).
Proof.
  induction post as [|q post IH]; intros pre parsed Hd Hfresh Hn Hl.
  - cbn [zip_names]. rewrite app_nil_r. reflexivity.
  - apply NoDup_cons in Hd as [Hq Hd].
    replace (len (q :: post)) with (Z.succ (len post)) in *
      by (unfold len; simpl; lia).
    pose proof (len_nonneg post) as Hpost.
    rewrite seqZ_cons by lia. rewrite Z.pred_succ.
    cbn [app bind_defaults]. rewrite subscript_middle. cbn [bind dict_mem dict_get value_items].
    assert (Hj : (length ds - length (q :: post) < length ds)%nat)
      by (unfold len in *; simpl; lia).
    destruct (lookup_lt_is_Some_2 ds _ Hj) as [d Hdv].
    replace (len pre - n + len ds)
      with (Z.of_nat (length ds - length (q :: post)))
      by (unfold len in *; simpl; lia).
    replace ((Z.of_nat (length ds - length (q :: post)) <? 0)
             || (len ds <=? Z.of_nat (length ds - length (q :: post))))
      with false
      by (symmetry; apply orb_false_iff; split;
          [apply Z.ltb_ge|apply Z.leb_gt]; unfold len in *; lia).
    assert (Hsub : subscript ds (Z.of_nat (length ds - length (q :: post)))
                   = Ok d)
      by (apply subscript_lookup; [lia|rewrite Nat2Z.id; exact Hdv]).
    rewrite Hsub. cbn [bind].
    rewrite (dict_set_absent parsed q d) by (apply Hfresh; left).
    replace (pre ++ q :: post ++ others) with ((pre ++ [q]) ++ post ++ others)
      by (rewrite <- app_assoc; reflexivity).
    replace (Z.succ (len pre)) with (len (pre ++ [q]))
      by (rewrite len_app; unfold len; simpl; lia).
    rewrite (IH (pre ++ [q]) (parsed ++ [(q, d)]) Hd).
    + rewrite <- app_assoc. cbn [app]. f_equal. f_equal.
      rewrite (drop_S ds d (length ds - length (q :: post))) by exact Hdv.
      cbn [zip_names]. f_equal. f_equal. f_equal. unfold len in *. simpl. lia.
    + intros r Hr.
      rewrite dict_get_app_absent by (apply Hfresh; right; exact Hr).
      cbn [dict_get]. destruct (String.eqb q r) eqn:E; [|reflexivity].
      apply String.eqb_eq in E. subst r. contradiction.
    + rewrite len_app. unfold len in *. simpl. lia.
    + lia.
Qed.

(** X19.  The positional defaults belong to the trailing parameters.  When
    a call passes the leading parameters positionally and no keyword, the
    remaining parameters take the last defaults, one each, provided there
    are defaults enough; when there are fewer defaults than remaining
    parameters the call fails with the missing-positional error. *)
Theorem defaults_fill_trailing (pre post others : list string)
    (p nlocals flags : Z) (consts : list value) (ins : list instruction)
    (ds first : list value) :
  Z.land flags 4 = 0 ->
  Z.land flags 8 = 0 ->
  NoDup (pre ++ post) ->
  length first = length pre ->
  0 <= p <= len (pre ++ post) ->
  (len post <= len ds ->
   arg_binding (Code (pre ++ post ++ others) (len (pre ++ post)) p 0 nlocals
                     flags consts ins)
               (VTuple ds) (VDict []) first []
   = Ok (zip_names (pre ++ post)
                   (first ++ drop (length ds - length post) ds)))
  /\ (len ds < len post ->
      arg_binding (Code (pre ++ post ++ others) (len (pre ++ post)) p 0
                        nlocals flags consts ins)
                  (VTuple ds) (VDict []) first []
      = Raise (TypeError ERR_MISSING_POS_ARGS)).
Proof.
  intros H4 H8 Hd Hl Hp.
  apply NoDup_app in Hd as (Hdpre & Hdis & Hdpost).
  assert (Hstart :
    arg_binding (Code (pre ++ post ++ others) (len (pre ++ post)) p 0 nlocals
                      flags consts ins)
                (VTuple ds) (VDict []) first []
    = let* parsed_args :=
        bind_defaults (pre ++ post ++ others) (len pre + len post)
                      (VTuple ds) [] (zip_names pre first)
                      (seqZ (len pre) (len post)) in
      let* _ := check_bound (pre ++ post ++ others) parsed_args
                            ERR_MISSING_POS_ARGS (range 0 p) in
      Ok parsed_args).
  { unfold arg_binding.
    cbn [co_varnames co_argcount co_posonlyargcount co_kwonlyargcount
         co_nlocals co_flags].
    rewrite H4, H8. cbn [Z.eqb negb bind].
    pose proof (len_nonneg post).
    replace (len (pre ++ post) <? len first) with false
      by (symmetry; apply Z.ltb_ge; rewrite len_app; unfold len in *; lia).
    cbn [bind bind_kw_defaults bind_keywords].
    pose proof (bind_positionals_fresh (post ++ others) false EmptyString
                  (len first) [] (fun _ => eq_refl) pre [] first [] Hdpre
                  (fun _ _ => eq_refl) Hl
                  (fun H => False_ind _ (Bool.diff_false_true H))) as Hb.
    rewrite app_nil_r in Hb. cbn [app] in Hb.
    change (len (@nil string)) with 0 in Hb.
    rewrite Hb. cbn [bind]. unfold range at 1.
    replace (len (pre ++ post) - len first) with (len post)
      by (rewrite len_app; unfold len; lia).
    replace (len first) with (len pre) by (unfold len; lia).
    rewrite (len_app pre post).
    destruct (bind_defaults _ _ _ _ _ _) as [d|e]; cbn [bind];
      [|reflexivity].
    destruct (check_bound _ d _ (range 0 p)); cbn [bind]; [|reflexivity].
    rewrite (range_empty (len pre + len post) (len pre + len post + 0))
      by lia.
    reflexivity. }
  rewrite Hstart. split.
  - intros Hds.
    rewrite (bind_defaults_fill others (len pre + len post) ds post pre
               (zip_names pre first) Hdpost).
    + cbn [bind]. rewrite <- zip_names_app by (symmetry; exact Hl).
      rewrite check_bound_all; [reflexivity|].
      intros i Hi. apply elem_of_range in Hi.
      replace (pre ++ post ++ others) with ((pre ++ post) ++ others)
        by (rewrite <- app_assoc; reflexivity).
      apply (bound_parameters (pre ++ post) others
               (first ++ drop (length ds - length post) ds) [] i).
      * apply NoDup_app. repeat split; assumption.
      * rewrite !length_app, length_drop. unfold len in Hds. lia.
      * reflexivity.
      * lia.
    + intros q Hq. apply dict_get_zip_absent. intros Hin.
      exact (Hdis q Hin Hq).
    + reflexivity.
    + exact Hds.
  - intros Hds. destruct post as [|q post].
    + pose proof (len_nonneg ds). change (len (@nil string)) with 0 in Hds.
      lia.
    + replace (len (q :: post)) with (Z.succ (len post)) in *
        by (unfold len; simpl; lia).
      pose proof (len_nonneg post). pose proof (len_nonneg ds).
      rewrite seqZ_cons by lia.
      cbn [app bind_defaults]. rewrite subscript_middle.
      cbn [bind dict_mem dict_get value_items].
      replace ((len pre - (len pre + Z.succ (len post)) + len ds <? 0)
               || (len ds <=? len pre - (len pre + Z.succ (len post)) + len ds))
        with true
        by (symmetry; apply orb_true_iff; left; apply Z.ltb_lt; lia).
      reflexivity.
Qed.

Lemma defaults_fill_trailing_witness :
  arg_binding scenario_two (VTuple [VInt 10]) (VDict []) [VInt 5] []
    = Ok [("a", VInt 5); ("b", VInt 10)]
  /\ arg_binding scenario_two (VTuple []) (VDict []) [VInt 5] []
    = Raise (TypeError ERR_MISSING_POS_ARGS).
Proof.
  assert (Hd : NoDup (["a"] ++ ["b"]))
    by (apply (bool_decide_unpack _); vm_compute; exact I).
  assert (Hp : 0 <= 0 <= len (["a"] ++ ["b"]))
    by (split; [reflexivity|discriminate]).
  destruct (defaults_fill_trailing ["a"] ["b"] [] 0 2 3 [] []
              [VInt 10] [VInt 5] eq_refl eq_refl Hd eq_refl Hp) as [H1 _].
  destruct (defaults_fill_trailing ["a"] ["b"] [] 0 2 3 [] []
              [] [VInt 5] eq_refl eq_refl Hd eq_refl Hp) as [_ H2].
  split.
  - apply H1. discriminate.
  - apply H2. reflexivity.
Defined.

(** X20.  A keyword-only parameter is not fed by position.  A call that
    passes every positional parameter and nothing else fails with the
    missing-keyword-only error; the same call succeeds when the parameter is
    passed by keyword, or when a keyword-only default exists for it, and the
    binding then lists the keyword-only parameter first. *)
Theorem keyword_only_parameter (params others : list string) (kw : string)
    (p nlocals flags : Z) (consts : list value) (ins : list instruction)
    (args_default : value) (args : list value) (v : value) :
  Z.land flags 4 = 0 ->
  Z.land flags 8 = 0 ->
  NoDup (kw :: params) ->
  length args = length params ->
  0 <= p <= len params ->
  let c := Code (params ++ kw :: others) (len params) p 1 nlocals flags
                consts ins in
  arg_binding c args_default (VDict []) args []
    = Raise (TypeError ERR_MISSING_KWONLY_ARGS)
  /\ arg_binding c args_default (VDict []) args [(kw, v)]
    = Ok ((kw, v) :: zip_names params args)
  /\ arg_binding c args_default (VDict [(kw, v)]) args []
    = Ok ((kw, v) :: zip_names params args).
Proof.
  intros H4 H8 Hd Hl Hp c. apply NoDup_cons in Hd as [Hkw Hd].
  assert (Hin : name_in kw (params ++ kw :: others) = true)
    by (apply name_in_elem, elem_of_app; right; left).
  assert (Hrest : forall base kwargs : dict value,
    (forall q, q ∈ params -> dict_get base q = None) ->
    (let* parsed_args :=
       bind_positionals (params ++ kw :: others) false EmptyString (len args)
                        base 0 args in
     let* parsed_args :=
       bind_defaults (params ++ kw :: others) (len params) args_default
                     kwargs parsed_args (range (len args) (len params)) in
     let* _ := check_bound (params ++ kw :: others) parsed_args
                           ERR_MISSING_POS_ARGS (range 0 p) in
     let* _ := check_bound (params ++ kw :: others) parsed_args
                           ERR_MISSING_KWONLY_ARGS
                           (range (len params) (len params + 1)) in
     Ok parsed_args)
    = if dict_mem base kw then Ok (base ++ zip_names params args)
      else Raise (TypeError ERR_MISSING_KWONLY_ARGS)).
  { intros base kwargs Hbase.
    pose proof (bind_positionals_fresh (kw :: others) false EmptyString
                  (len args) [] (fun _ => eq_refl) params [] args base Hd
                  Hbase Hl
                  (fun H => False_ind _ (Bool.diff_false_true H))) as Hb.
    rewrite app_nil_r in Hb. cbn [app] in Hb.
    change (len (@nil string)) with 0 in Hb.
    rewrite Hb. cbn [bind].
    rewrite (range_empty (len args) (len params)) by (unfold len; lia).
    cbn [bind_defaults bind].
    rewrite check_bound_all.
    - cbn [bind]. unfold range.
      replace (len params + 1 - len params) with 1 by lia.
      change (seqZ (len params) 1) with [len params].
      cbn [check_bound]. rewrite subscript_middle. cbn [bind].
      unfold dict_mem.
      destruct (dict_get base kw) as [w|] eqn:E.
      + rewrite (dict_get_app_present base _ kw w E). reflexivity.
      + rewrite (dict_get_app_absent base _ kw E).
        rewrite dict_get_zip_absent by exact Hkw. reflexivity.
    - intros i Hi. apply elem_of_range in Hi.
      apply (bound_parameters params (kw :: others) args base i Hd Hl Hbase).
      lia. }
  assert (Hone : forall q, q ∈ params -> dict_get [(kw, v)] q = None).
  { intros q Hq. cbn [dict_get].
    destruct (String.eqb kw q) eqn:E; [|reflexivity].
    apply String.eqb_eq in E. subst q. contradiction. }
  assert (Hmem : dict_mem [(kw, v)] kw = true).
  { unfold dict_mem. cbn [dict_get]. rewrite String.eqb_refl. reflexivity. }
  unfold c, arg_binding.
  cbn [co_varnames co_argcount co_posonlyargcount co_kwonlyargcount
       co_nlocals co_flags].
  rewrite H4, H8. cbn [Z.eqb negb bind].
  replace (len params <? len args) with false
    by (symmetry; apply Z.ltb_ge; unfold len; lia).
  cbn [bind bind_kw_defaults bind_keywords]. rewrite Hin.
  unfold bind_keyword. rewrite Hin.
  rewrite name_index_middle by exact Hkw.
  replace (len params <? p) with false by (symmetry; apply Z.ltb_ge; lia).
  cbn [negb bind dict_set bind_keywords].
  rewrite (Hrest [] [] (fun _ _ => eq_refl)), (Hrest [(kw, v)] [] Hone),
          (Hrest [(kw, v)] [(kw, v)] Hone), Hmem.
  repeat split.
Qed.

Lemma keyword_only_parameter_witness :
  let c := Code ["a"; "k"] 1 0 1 2 3 [] [] in
  arg_binding c (VTuple []) (VDict []) [VInt 1] []
    = Raise (TypeError ERR_MISSING_KWONLY_ARGS)
  /\ arg_binding c (VTuple []) (VDict []) [VInt 1] [("k", VInt 2)]
    = Ok [("k", VInt 2); ("a", VInt 1)]
  /\ arg_binding c (VTuple []) (VDict [("k", VInt 2)]) [VInt 1] []
    = Ok [("k", VInt 2); ("a", VInt 1)].
Proof.
  apply (keyword_only_parameter ["a"] [] "k" 0 2 3 [] [] (VTuple [])
           [VInt 1] (VInt 2)).
  - reflexivity.
  - reflexivity.
  - apply (bool_decide_unpack _). vm_compute. exact I.
  - reflexivity.
  - split; [reflexivity|discriminate].
Defined.

(** X21.  The locals of a callee frame are the locals of the defining frame
    overlaid with the binding: a bound name has its bound value whatever
    the defining frame holds under it, and any other name has the value the
    defining frame gives it, if any. *)
Theorem f_locals_overlay (self_locals : gmap string value)
    (parsed_args : dict value) (name : string) :
  NoDup (map fst parsed_args) ->
  f_locals self_locals parsed_args !! name =
    match dict_get parsed_args name with
    | Some v => Some v
    | None => self_locals !! name
    end.
Proof.
  unfold f_locals. revert self_locals.
  induction parsed_args as [|[k v] d IH]; intros m Hd; [reflexivity|].
  cbn [map fst] in Hd. apply NoDup_cons in Hd as [Hk Hd].
  cbn [foldl fst snd dict_get]. rewrite IH by exact Hd.
  destruct (String.eqb k name) eqn:E.
  - apply String.eqb_eq in E. subst name.
    assert (Hnone : dict_get d k = None).
    { clear -Hk. induction d as [|[q w] d IH]; [reflexivity|].
      cbn [map fst] in Hk. apply not_elem_of_cons in Hk as [Hne Hk].
      cbn [dict_get]. destruct (String.eqb q k) eqn:E.
      - apply String.eqb_eq in E. congruence.
      - apply IH. exact Hk. }
    rewrite Hnone. apply lookup_insert_eq.
  - destruct (dict_get d name); [reflexivity|].
    apply lookup_insert_ne. intros ->. rewrite String.eqb_refl in E.
    discriminate E.
Qed.

Lemma f_locals_overlay_witness :
  f_locals {[ "a" := VInt 0; "g" := VInt 7 ]} [("a", VInt 5); ("b", VInt 10)]
    !! "a" = Some (VInt 5)
  /\ f_locals {[ "a" := VInt 0; "g" := VInt 7 ]} [("a", VInt 5); ("b", VInt 10)]
    !! "g" = Some (VInt 7).
Proof.
  assert (Hd : NoDup (map fst [("a", VInt 5); ("b", VInt 10)]))
    by (apply (bool_decide_unpack _); vm_compute; exact I).
  split.
  - rewrite (f_locals_overlay _ _ "a" Hd). reflexivity.
  - rewrite (f_locals_overlay _ _ "g" Hd). reflexivity.
Defined.

(** ** Building and taking apart containers *)

(** X22.  [unpack_sequence_op] undoes [build_list_op] up to order: the list
    of the [N] values popped is replaced by its items with the first item
    on top.  When the operand is not the length of the sequence the handler
    fails with [ValueError]. *)
Theorem build_list_then_unpack (fr : Frame) (s vs : list value) :
  let fr1 := with_stack fr (s ++ [VList vs]) in
  build_list_op (len vs) (with_stack fr (s ++ vs)) = Ok fr1 /\
  unpack_sequence_op (len vs) fr1 = Ok (with_stack fr (s ++ rev vs)) /\
  (forall count : Z,
      count <> len vs -> unpack_sequence_op count fr1 = Raise ValueError).
Proof.
  intros fr1. split; [|split].
  - unfold build_list_op. rewrite popn_top. reflexivity.
  - unfold unpack_sequence_op.
    rewrite (top_snoc fr1 s (VList vs)) by reflexivity.
    cbn [bind value_len]. rewrite Z.eqb_refl. cbn [negb].
    rewrite (pop_snoc fr1 s (VList vs)) by reflexivity. reflexivity.
  - intros count Hc. unfold unpack_sequence_op.
    rewrite (top_snoc fr1 s (VList vs)) by reflexivity.
    cbn [bind value_len].
    replace (len vs =? count) with false
      by (symmetry; apply Z.eqb_neq; congruence).
    reflexivity.
Qed.

Lemma build_list_then_unpack_witness :
  let fr1 := with_stack empty_frame [VInt 0; VList [VInt 1; VInt 2]] in
  build_list_op 2 (with_stack empty_frame [VInt 0; VInt 1; VInt 2]) = Ok fr1 /\
  unpack_sequence_op 2 fr1
    = Ok (with_stack empty_frame [VInt 0; VInt 2; VInt 1]) /\
  unpack_sequence_op 3 fr1 = Raise ValueError.
Proof.
  destruct (build_list_then_unpack empty_frame [VInt 0] [VInt 1; VInt 2])
    as (H1 & H2 & H3).
  split; [exact H1|]. split; [exact H2|]. apply H3. discriminate.
Defined.

(** X23.  [list_to_tuple_op] turns the list on top of the stack into the
    tuple of the same items, which is the value [build_tuple_op] leaves as
    a list.  Applied to an iterator object it collects the items that
    remain and leaves the iterator exhausted. *)
Theorem list_to_tuple_collects (fr : Frame) (s : list value) :
  (forall vs : list value,
      list_to_tuple_op (with_stack fr (s ++ [VList vs]))
      = Ok (with_stack fr (s ++ [VTuple vs])))
  /\ (forall (loc : nat) (items : list value),
         iterators fr !! loc = Some items ->
         list_to_tuple_op (with_stack fr (s ++ [VIter loc]))
         = Ok (with_stack
                 (with_iterators fr (<[loc := []]> (iterators fr)))
                 (s ++ [VTuple items]))).
Proof.
  split.
  - intros vs. unfold list_to_tuple_op.
    rewrite (pop_snoc _ s (VList vs)) by reflexivity. reflexivity.
  - intros loc items Hi. unfold list_to_tuple_op.
    rewrite (pop_snoc _ s (VIter loc)) by reflexivity.
    cbn [bind iterate]. rewrite with_stack_twice.
    change (iterators (with_stack fr s)) with (iterators fr).
    rewrite Hi. reflexivity.
Qed.

Lemma list_to_tuple_collects_witness :
  list_to_tuple_op (with_stack three_items [VIter 0])
  = Ok (with_stack
          (with_iterators three_items (<[0%nat := []]> (iterators three_items)))
          [VTuple [VInt 1; VInt 2; VInt 3]]).
Proof.
  destruct (list_to_tuple_collects three_items []) as [_ H].
  exact (H 0%nat [VInt 1; VInt 2; VInt 3] eq_refl).
Defined.

Lemma join_strings_from_all (strs : list string) :
  forall i : nat,
    join_strings_from i (map VStr strs)
    = Ok (foldr String.append EmptyString strs).
Proof.
  induction strs as [|t strs IH]; intros i; [reflexivity|].
  cbn [map join_strings_from foldr]. rewrite IH. reflexivity.
Qed.

Lemma join_strings_from_refuses (strs : list string) (v : value)
    (rest : list value) (t : string) :
  (forall u, v <> VStr u) -> type_name v = Ok t ->
  forall i : nat,
    join_strings_from i (map VStr strs ++ v :: rest)
    = Raise (TypeError ("sequence item " +:+ pretty (i + length strs)%nat +:+
                        ": expected str instance, " +:+ t +:+ " found")).
Proof.
  intros Hv Ht. induction strs as [|u strs IH]; intros i.
  - cbn [map app length]. rewrite Nat.add_0_r.
    destruct v; cbn [join_strings_from]; rewrite ?Ht; try reflexivity.
    exfalso. eapply Hv. reflexivity.
  - cbn [map app join_strings_from length]. rewrite IH.
    replace (S i + length strs)%nat with (i + S (length strs))%nat by lia.
    reflexivity.
Qed.

(** X24.  [build_string_op] replaces the top [N] strings by their
    concatenation, deepest first, and pushes the empty string when [N] is
    zero; when one of the [N] values is not a string it fails with the
    [TypeError] of [join], which names the position and the type of the
    first such value. *)
Theorem build_string_concatenates (fr : Frame) (s : list value) :
  (forall strs : list string,
      build_string_op (len strs) (with_stack fr (s ++ map VStr strs))
      = Ok (with_stack fr (s ++ [VStr (foldr String.append EmptyString strs)])))
  /\ (forall (strs : list string) (v : value) (rest : list value)
             (t : string),
         (forall u, v <> VStr u) -> type_name v = Ok t ->
         build_string_op (len (map VStr strs ++ v :: rest))
                         (with_stack fr (s ++ map VStr strs ++ v :: rest))
         = Raise (TypeError ("sequence item " +:+ pretty (length strs) +:+
                             ": expected str instance, " +:+ t +:+
                             " found"))).
Proof.
  split.
  - intros strs. unfold build_string_op.
    replace (len strs) with (len (map VStr strs))
      by (unfold len; rewrite length_map; reflexivity).
    rewrite popn_top. unfold join_strings.
    rewrite join_strings_from_all. reflexivity.
  - intros strs v rest t Hv Ht. unfold build_string_op.
    rewrite popn_top. unfold join_strings.
    rewrite (join_strings_from_refuses strs v rest t Hv Ht). reflexivity.
Qed.

Lemma build_string_concatenates_witness :
  build_string_op 3 (with_stack empty_frame
                       [VStr "ab"; VInt 1; VStr "c"])
  = Raise (TypeError "sequence item 1: expected str instance, int found").
Proof.
  destruct (build_string_concatenates empty_frame []) as [_ H].
  apply (H ["ab"] (VInt 1) [VStr "c"] "int").
  - discriminate.
  - reflexivity.
Defined.

Lemma const_key_items_zip (tail : list value) :
  forall (ks : list string) (vs : list value) (pre_ks : list string)
         (pre_vs : list value) (item_map : dict value),
    length pre_ks = length pre_vs ->
    length ks = length vs ->
    const_key_items (VTuple (map VStr (pre_ks ++ ks)))
                    (pre_vs ++ vs ++ tail) item_map
                    (seqZ (len pre_vs) (len vs))
    = Ok (dict_update item_map (zip_names ks vs)).
Proof.
  induction ks as [|k ks IH]; intros vs pre_ks pre_vs item_map Hp Hl;
    destruct vs as [|v vs]; try discriminate Hl; [reflexivity|].
  replace (len (v :: vs)) with (Z.succ (len vs)) by (unfold len; simpl; lia).
  pose proof (len_nonneg vs).
  rewrite seqZ_cons by lia. rewrite Z.pred_succ.
  cbn [app const_key_items]. rewrite subscript_middle.
  cbn [bind getitem sequence_item int_operand].
  replace (len pre_vs) with (len (map VStr pre_ks))
    by (unfold len; rewrite length_map; lia).
  rewrite map_app. cbn [map]. rewrite subscript_middle.
  cbn [bind dict_key].
  replace (Z.succ (len (map VStr pre_ks))) with (len (pre_vs ++ [v]))
    by (rewrite len_app; unfold len; rewrite length_map; simpl; lia).
  replace (map VStr pre_ks ++ VStr k :: map VStr ks)
    with (map VStr ((pre_ks ++ [k]) ++ ks))
    by (rewrite !map_app, <- app_assoc; reflexivity).
  replace (pre_vs ++ v :: vs ++ tail) with ((pre_vs ++ [v]) ++ vs ++ tail)
    by (rewrite <- app_assoc; reflexivity).
  rewrite IH.
  - reflexivity.
  - rewrite !length_app. simpl. lia.
  - simpl in Hl. lia.
Qed.

Lemma interleave_app (ks ks' : list string) (vs vs' : list value) :
  length ks = length vs ->
  interleave (ks ++ ks') (vs ++ vs') = interleave ks vs ++ interleave ks' vs'.
Proof.
  revert vs. induction ks as [|k ks IH]; intros [|v vs] H;
    try discriminate H; [reflexivity|].
  cbn [app interleave]. rewrite IH by (simpl in H; lia). reflexivity.
Qed.

Lemma len_interleave (ks : list string) (vs : list value) :
  length ks = length vs -> len (interleave ks vs) = 2 * len vs.
Proof.
  revert vs. induction ks as [|k ks IH]; intros [|v vs] H;
    try discriminate H; [reflexivity|].
  cbn [interleave]. unfold len in *. simpl length.
  specialize (IH vs). simpl in H. lia.
Qed.

Lemma map_items_zip :
  forall (ks : list string) (vs : list value) (pre_ks : list string)
         (pre_vs : list value) (item_map : dict value),
    length pre_ks = length pre_vs ->
    length ks = length vs ->
    map_items (interleave (pre_ks ++ ks) (pre_vs ++ vs)) item_map
              (seqZ (len pre_vs) (len vs))
    = Ok (dict_update item_map (zip_names ks vs)).
Proof.
  induction ks as [|k ks IH]; intros vs pre_ks pre_vs item_map Hp Hl;
    destruct vs as [|v vs]; try discriminate Hl; [reflexivity|].
  replace (len (v :: vs)) with (Z.succ (len vs)) by (unfold len; simpl; lia).
  pose proof (len_nonneg vs).
  rewrite seqZ_cons by lia. rewrite Z.pred_succ.
  cbn [map_items]. cbv zeta.
  rewrite interleave_app by exact Hp. cbn [interleave].
  assert (Hi : 2 * len pre_vs = len (interleave pre_ks pre_vs))
    by (symmetry; apply len_interleave; exact Hp).
  rewrite Hi.
  replace (interleave pre_ks pre_vs ++ VStr k :: v :: interleave ks vs)
    with ((interleave pre_ks pre_vs ++ [VStr k]) ++ v :: interleave ks vs)
    at 1 by (rewrite <- app_assoc; reflexivity).
  replace (len (interleave pre_ks pre_vs) + 1)
    with (len (interleave pre_ks pre_vs ++ [VStr k]))
    by (rewrite len_app; reflexivity).
  rewrite subscript_middle. cbn [bind].
  rewrite subscript_middle. cbn [bind dict_key].
  replace (Z.succ (len pre_vs)) with (len (pre_vs ++ [v]))
    by (rewrite len_app; unfold len; simpl; lia).
  replace (interleave pre_ks pre_vs ++ VStr k :: v :: interleave ks vs)
    with (interleave ((pre_ks ++ [k]) ++ ks) ((pre_vs ++ [v]) ++ vs)).
  - rewrite IH.
    + reflexivity.
    + rewrite !length_app. simpl. lia.
    + simpl in Hl. lia.
  - rewrite (interleave_app (pre_ks ++ [k]))
      by (rewrite !length_app; simpl; lia).
    rewrite (interleave_app pre_ks) by exact Hp.
    rewrite <- app_assoc. reflexivity.
Qed.

(** X25.  [build_map_op], from [N] keys each followed by its value, and
    [build_const_key_map_op], from [N] values followed by the tuple of
    their keys, build the same dictionary: the one obtained by setting the
    keys in order, so that a key given twice keeps its first place and its
    last value. *)
Theorem build_map_forms_agree (fr : Frame) (s : list value)
    (ks : list string) (vs : list value) :
  length ks = length vs ->
  build_map_op (len vs) (with_stack fr (s ++ interleave ks vs))
    = Ok (with_stack fr (s ++ [VDict (dict_of (zip_names ks vs))]))
  /\ build_const_key_map_op (len vs)
       (with_stack fr (s ++ vs ++ [VTuple (map VStr ks)]))
    = Ok (with_stack fr (s ++ [VDict (dict_of (zip_names ks vs))])).
Proof.
  intros Hl. split.
  - unfold build_map_op.
    rewrite <- (len_interleave ks vs Hl), popn_top.
    unfold range. rewrite Z.sub_0_r.
    pose proof (map_items_zip ks vs [] [] [] eq_refl Hl) as Hm.
    cbn [app] in Hm. change (len (@nil value)) with 0 in Hm.
    rewrite Hm. reflexivity.
  - unfold build_const_key_map_op.
    replace (len vs + 1) with (len (vs ++ [VTuple (map VStr ks)]))
      by (rewrite len_app; reflexivity).
    rewrite popn_top, subscript_last. cbn [bind].
    unfold range. rewrite Z.sub_0_r.
    pose proof (const_key_items_zip [VTuple (map VStr ks)] ks vs [] [] []
                  eq_refl Hl) as Hc.
    cbn [app] in Hc. change (len (@nil value)) with 0 in Hc.
    rewrite Hc. reflexivity.
Qed.

Lemma build_map_forms_agree_witness :
  build_map_op 2 (with_stack empty_frame
                    [VStr "a"; VInt 1; VStr "a"; VInt 2])
    = Ok (with_stack empty_frame [VDict [("a", VInt 2)]])
  /\ build_const_key_map_op 2
       (with_stack empty_frame [VInt 1; VInt 2; VTuple [VStr "a"; VStr "a"]])
    = Ok (with_stack empty_frame [VDict [("a", VInt 2)]]).
Proof.
  exact (build_map_forms_agree empty_frame [] ["a"; "a"] [VInt 1; VInt 2]
           eq_refl).
Defined.

(** X26.  A list read back by subscript gives the values it was built
    from: index [i] selects the [i]-th value popped by [build_list_op],
    index [i - N] the same value counted from the end, and an index outside
    [-N .. N-1] fails with [IndexError]. *)
Theorem build_list_then_subscript (fr : Frame) (s vs : list value) :
  build_list_op (len vs) (with_stack fr (s ++ vs))
    = Ok (with_stack fr (s ++ [VList vs]))
  /\ (forall (i : nat) (v : value),
         vs !! i = Some v ->
         binary_subscr_op (with_stack fr (s ++ [VList vs; VInt (Z.of_nat i)]))
           = Ok (with_stack fr (s ++ [v]))
         /\ binary_subscr_op
              (with_stack fr (s ++ [VList vs; VInt (Z.of_nat i - len vs)]))
           = Ok (with_stack fr (s ++ [v])))
  /\ (forall j : Z,
         j < - len vs \/ len vs <= j ->
         binary_subscr_op (with_stack fr (s ++ [VList vs; VInt j]))
         = Raise IndexError).
Proof.
  assert (Hpops : forall key : value,
    binary_subscr_op (with_stack fr (s ++ [VList vs; key]))
    = let* v := getitem (VList vs) key in Ok (with_stack fr (s ++ [v]))).
  { intros key. unfold binary_subscr_op.
    rewrite (pop_snoc _ (s ++ [VList vs]) key)
      by (cbn; rewrite <- app_assoc; reflexivity).
    cbn [bind]. rewrite (pop_snoc _ s (VList vs)) by reflexivity.
    cbn [bind]. reflexivity. }
  split; [|split].
  - unfold build_list_op. rewrite popn_top. reflexivity.
  - intros i v Hv. pose proof (lookup_lt_Some _ _ _ Hv) as Hlt.
    rewrite !Hpops. cbn [getitem sequence_item int_operand]. split.
    + assert (Hs : subscript vs (Z.of_nat i) = Ok v)
        by (apply subscript_lookup; [lia|rewrite Nat2Z.id; exact Hv]).
      rewrite Hs. reflexivity.
    + assert (Hs : subscript vs (Z.of_nat i - len vs) = Ok v).
      { unfold subscript. cbv zeta.
        replace (Z.of_nat i - len vs <? 0) with true
          by (symmetry; apply Z.ltb_lt; unfold len; lia).
        replace (len vs + (Z.of_nat i - len vs)) with (Z.of_nat i) by lia.
        replace (Z.of_nat i <? 0) with false
          by (symmetry; apply Z.ltb_ge; lia).
        rewrite Nat2Z.id, Hv. reflexivity. }
      rewrite Hs. reflexivity.
  - intros j Hj. rewrite Hpops. cbn [getitem sequence_item int_operand].
    assert (Hs : subscript vs j = Raise IndexError).
    { unfold subscript. cbv zeta. pose proof (len_nonneg vs).
      destruct (j <? 0) eqn:Ej.
      - apply Z.ltb_lt in Ej.
        replace (len vs + j <? 0) with true
          by (symmetry; apply Z.ltb_lt; lia).
        reflexivity.
      - apply Z.ltb_ge in Ej. rewrite (proj2 (Z.ltb_ge j 0) Ej).
        rewrite lookup_ge_None_2 by (unfold len in *; lia). reflexivity. }
    rewrite Hs. reflexivity.
Qed.

Lemma build_list_then_subscript_witness :
  binary_subscr_op
    (with_stack empty_frame [VList [VInt 7; VInt 8]; VInt 1])
    = Ok (with_stack empty_frame [VInt 8])
  /\ binary_subscr_op
       (with_stack empty_frame [VList [VInt 7; VInt 8]; VInt (1 - 2)])
    = Ok (with_stack empty_frame [VInt 8])
  /\ binary_subscr_op
       (with_stack empty_frame [VList [VInt 7; VInt 8]; VInt 2])
    = Raise IndexError.
Proof.
  destruct (build_list_then_subscript empty_frame [] [VInt 7; VInt 8])
    as (_ & H2 & H3).
  destruct (H2 1%nat (VInt 8) eq_refl) as [Ha Hb].
  split; [exact Ha|]. split; [exact Hb|].
  apply H3. right. discriminate.
Defined.

(** ** Iterators *)

(** X27.  [get_iter_op] on a list makes a new iterator object: its location
    was not in use, the iterator objects that exist are left as they are,
    and a [for_iter_op] that follows produces the first item of the list.
    On an iterator the handler pushes the iterator back unchanged. *)
Theorem get_iter_makes_new_iterator (fr : Frame) (s : list value)
    (v : value) (rest : list value) (to : Z) :
  data_stack fr = s ++ [VList (v :: rest)] ->
  let loc := fresh (dom (iterators fr)) in
  let fr1 := with_stack
               (with_iterators fr (<[loc := v :: rest]> (iterators fr)))
               (s ++ [VIter loc]) in
  iterators fr !! loc = None
  /\ get_iter_op fr = Ok fr1
  /\ (forall other : nat,
         other <> loc -> iterators fr1 !! other = iterators fr !! other)
  /\ for_iter_op to fr1
     = Ok (with_stack
             (with_iterators fr1 (<[loc := rest]> (iterators fr1)))
             (s ++ [VIter loc; v]))
  /\ get_iter_op fr1 = Ok fr1.
Proof.
  intros Hs loc fr1. split; [|split; [|split; [|split]]].
  - apply not_elem_of_dom. apply is_fresh.
  - unfold get_iter_op. rewrite (pop_snoc fr s _ Hs). reflexivity.
  - intros other Hne.
    change (iterators fr1) with (<[loc := v :: rest]> (iterators fr)).
    apply lookup_insert_ne. congruence.
  - apply (for_iter_op_next to fr1 s loc v rest); [reflexivity|].
    change (iterators fr1) with (<[loc := v :: rest]> (iterators fr)).
    apply lookup_insert_eq.
  - unfold get_iter_op.
    rewrite (pop_snoc fr1 s (VIter loc)) by reflexivity. reflexivity.
Qed.

Lemma get_iter_makes_new_iterator_witness :
  let fr := with_stack empty_frame [VList [VInt 1; VInt 2]] in
  let loc := fresh (dom (iterators fr)) in
  let fr1 := with_stack
               (with_iterators fr (<[loc := [VInt 1; VInt 2]]> (iterators fr)))
               [VIter loc] in
  iterators fr !! loc = None
  /\ get_iter_op fr = Ok fr1
  /\ (forall other : nat,
         other <> loc -> iterators fr1 !! other = iterators fr !! other)
  /\ for_iter_op 6 fr1
     = Ok (with_stack
             (with_iterators fr1 (<[loc := [VInt 2]]> (iterators fr1)))
             [VIter loc; VInt 1])
  /\ get_iter_op fr1 = Ok fr1.
Proof.
  exact (get_iter_makes_new_iterator
           (with_stack empty_frame [VList [VInt 1; VInt 2]])
           [] (VInt 1) [VInt 2] 6 eq_refl).
Defined.

(** ** Conditional jumps *)

(** X28.  The two conditional jumps of a pair are complementary.  With a
    condition on top of the stack and a target known to the index,
    [pop_jump_forward_if_true_op] and [pop_jump_forward_if_false_op] both
    pop the condition and exactly one of them redirects the pointer;
    [jump_if_true_or_pop_op] and [jump_if_false_or_pop_op] keep the
    condition when they jump and pop it when they do not, and again exactly
    one of them jumps. *)
Theorem conditional_jumps_complement (rt : ObjectRuntime) (fr : Frame)
    (s : list value) (cond : value) (to i : Z) :
  data_stack fr = s ++ [cond] ->
  index fr !! to = Some i ->
  let popped := with_stack fr s in
  let jumped := with_counter popped (i - 1) in
  let kept := with_counter fr (i - 1) in
  (pop_jump_forward_if_true_op rt to fr, pop_jump_forward_if_false_op rt to fr)
    = (if truth rt cond then (Ok jumped, Ok popped)
       else (Ok popped, Ok jumped))
  /\ (jump_if_true_or_pop_op rt to fr, jump_if_false_or_pop_op rt to fr)
    = (if truth rt cond then (Ok kept, Ok popped)
       else (Ok popped, Ok kept)).
Proof.
  intros Hs Hi popped jumped kept.
  unfold pop_jump_forward_if_true_op, pop_jump_forward_if_false_op,
    jump_if_true_or_pop_op, jump_if_false_or_pop_op, jump_forward_op.
  rewrite (pop_snoc fr s cond Hs), (top_snoc fr s cond Hs). cbn [bind].
  change (index (with_stack fr s)) with (index fr). rewrite Hi.
  destruct (truth rt cond); split; reflexivity.
Qed.

Lemma conditional_jumps_complement_witness :
  let fr := with_stack skip_frame [VInt 0] in
  (pop_jump_forward_if_true_op host 4 fr,
   pop_jump_forward_if_false_op host 4 fr)
    = (Ok (with_stack fr []), Ok (with_counter (with_stack fr []) (2 - 1)))
  /\ (jump_if_true_or_pop_op host 4 fr, jump_if_false_or_pop_op host 4 fr)
    = (Ok (with_stack fr []), Ok (with_counter fr (2 - 1))).
Proof.
  exact (conditional_jumps_complement host (with_stack skip_frame [VInt 0])
           [] (VInt 0) 4 2 eq_refl eq_refl).
Defined.

(** ** Function objects *)

(** X29.  [make_function_op] pops the code first and then, for each of the
    two low flag bits that is set, one more value: with both bits set the
    value just below the code becomes the positional defaults of the
    function and the value below that one its keyword defaults.  The
    higher flag bits make it pop nothing. *)
Theorem make_function_pops (fr : Frame) (s : list value) (c : CodeType)
    (x y : value) (flags : Z) :
  (Z.land flags 1 = 0 -> Z.land flags 2 = 0 ->
   make_function_op flags (with_stack fr (s ++ [VCode c]))
   = Ok (with_stack fr (s ++ [VFunc c (VTuple []) (VDict [])])))
  /\ (Z.land flags 1 <> 0 -> Z.land flags 2 = 0 ->
      make_function_op flags (with_stack fr (s ++ [x; VCode c]))
      = Ok (with_stack fr (s ++ [VFunc c x (VDict [])])))
  /\ (Z.land flags 1 = 0 -> Z.land flags 2 <> 0 ->
      make_function_op flags (with_stack fr (s ++ [x; VCode c]))
      = Ok (with_stack fr (s ++ [VFunc c (VTuple []) x])))
  /\ (Z.land flags 1 <> 0 -> Z.land flags 2 <> 0 ->
      make_function_op flags (with_stack fr (s ++ [y; x; VCode c]))
      = Ok (with_stack fr (s ++ [VFunc c x y]))).
Proof.
  assert (Hb : forall k, Z.land flags k <> 0 -> (Z.land flags k =? 0) = false)
    by (intros k Hk; apply Z.eqb_neq; exact Hk).
  repeat split; intros H1 H2; unfold make_function_op.
  - rewrite (pop_snoc _ s (VCode c)) by reflexivity. cbn [bind].
    rewrite H1, H2. reflexivity.
  - rewrite (pop_snoc _ (s ++ [x]) (VCode c))
      by (cbn; rewrite <- app_assoc; reflexivity).
    cbn [bind]. rewrite (Hb 1 H1), H2.
    rewrite (pop_snoc _ s x) by reflexivity. reflexivity.
  - rewrite (pop_snoc _ (s ++ [x]) (VCode c))
      by (cbn; rewrite <- app_assoc; reflexivity).
    cbn [bind]. rewrite H1, (Hb 2 H2). cbn [Z.eqb bind].
    rewrite (pop_snoc _ s x) by reflexivity. reflexivity.
  - rewrite (pop_snoc _ (s ++ [y; x]) (VCode c))
      by (cbn; rewrite <- app_assoc; reflexivity).
    cbn [bind]. rewrite (Hb 1 H1), (Hb 2 H2).
    rewrite (pop_snoc _ (s ++ [y]) x)
      by (cbn; rewrite <- app_assoc; reflexivity).
    cbn [bind]. rewrite (pop_snoc _ s y) by reflexivity. reflexivity.
Qed.

Lemma make_function_pops_witness :
  make_function_op 3
    (with_stack empty_frame
       [VDict [("k", VInt 1)]; VTuple [VInt 10]; VCode scenario_two])
  = Ok (with_stack empty_frame
          [VFunc scenario_two (VTuple [VInt 10]) (VDict [("k", VInt 1)])]).
Proof.
  destruct (make_function_pops empty_frame [] scenario_two
              (VTuple [VInt 10]) (VDict [("k", VInt 1)]) 3)
    as (_ & _ & _ & H).
  apply H; discriminate.
Defined.
